(** * RadioAnnouncer: announcement scheduling and cancellation core

    A shallow embedding of [src/utils/RadioAnnouncer.ts].  The class is an
    event-driven object: two entry points ([onStationChange],
    [setMusicPlaying]), two timer callbacks (the 800 ms debounce and the
    15000 ms countdown), the continuations of the [await]s of
    [generateAnnouncement] and [playPendingAnnouncement], and the [onended]
    callback of a started audio source.  The model is a transition system on
    a state record [St] holding the fields of the class together with the
    parts of the JavaScript runtime the class interacts with:

    - a clock [now] (milliseconds, a JavaScript number used as an integer) and the two timer slots; a slot holds the
      armed timer ([Some (deadline, ...)]) or [None] once it is cleared or has
      fired.  Timers fire exactly at their deadline: the clock never advances
      past an armed deadline;
    - the generation pipelines started so far ([pipelines]); a promise of
      [generateAnnouncement] is its index in that list;
    - the [playPendingAnnouncement] calls suspended at
      [await this.pendingBufferPromise] ([triggers]);
    - the announcements currently playing ([sources]);
    - an append-only event log ([log], newest event first).

    Every [await] is a suspension point at which any other enabled event may
    run; the outcomes of the external services (text generation, speech
    synthesis, decoding, audio-graph construction) are chosen by the
    environment. *)

From Stdlib Require Import List String Ascii Arith NArith ZArith Lia Bool.
Import ListNotations.
Open Scope list_scope.



(** ** Values *)

(** A decoded [AudioBuffer], identified by an opaque number. *)
Definition AudioBuffer := nat.

(** Outcome of an awaited external call: a value, or a thrown exception. *)
Inductive Exc (A : Type) : Type :=
| Ret (a : A)
| Throw.
Arguments Ret {A} a.
Arguments Throw {A}.

Definition exc_bind {A B} (m : Exc A) (k : A -> Exc B) : Exc B :=
  match m with Ret a => k a | Throw => Throw end.

Notation "x <- m ;; k" := (exc_bind m (fun x => k))
  (at level 61, m at next level, right associativity).

(** The settled state of a JavaScript promise. *)
Inductive PromiseResult (A : Type) : Type :=
| Fulfilled (a : A)
| Rejected.
Arguments Fulfilled {A} a.
Arguments Rejected {A}.

(** JavaScript truthiness of a [string | null]. *)
Definition truthy_str (o : option string) : bool :=
  match o with Some s => negb (String.eqb s ""%string) | None => false end.

(** [String.prototype.trim], for strings of ASCII characters: there its
    white space and line terminators are exactly TAB, LF, VT, FF, CR and
    SPACE.  The Unicode white space that [trim] also strips (U+00A0, U+FEFF,
    U+2028, ...) lies outside the alphabet of the model. *)
Definition is_ws (c : ascii) : bool :=
  let n := nat_of_ascii c in
  Nat.eqb n 32 || Nat.eqb n 9 || Nat.eqb n 10 || Nat.eqb n 11 || Nat.eqb n 12 || Nat.eqb n 13.

Fixpoint drop_ws (l : list ascii) : list ascii :=
  match l with
  | [] => []
  | c :: l' => if is_ws c then drop_ws l' else l
  end.

Definition js_trim (s : string) : string :=
  string_of_list_ascii
    (rev (drop_ws (rev (drop_ws (list_ascii_of_string s))))).

(** ** Events *)

Inductive Ev : Type :=
(** [generateAnnouncement(id, station, freq)] called by the debounce timer;
    it issues the script request at once. *)
| EvGenRequest (epoch : nat) (station freq : string) (t : N)
(** the countdown timer armed for [epoch] fired. *)
| EvCountdownFire (epoch : nat) (t : N)
(** a gain node connected to the speakers and the visualizer and a buffer
    source started on buffer [b], for the trigger of [epoch] that awaited the
    promise [promise]. *)
| EvPlay (epoch promise : nat) (b : AudioBuffer) (t : N)
(** [node.disconnect()]. *)
| EvDisconnect (node : nat)
(** [console.error(msg, e)]. *)
| EvLog (msg : string).

(** The class has no UI of its own and surfaces no error: its only
    user-visible effect is audible announcement playback. *)
Definition user_visible (ev : Ev) : Prop :=
  match ev with EvPlay _ _ _ _ => True | _ => False end.

(** ** Generation pipelines *)

(** Where a run of [generateAnnouncement] is suspended. *)
Inductive Stage : Type :=
| SScript                                 (* await generateContent (script) *)
| STts (script : string)                  (* await generateContent (tts) *)
| SDecode (audioData : string)            (* await decodeAudioData *)
| SDone (r : PromiseResult (option AudioBuffer)).

Record Pipeline : Type := mkPipeline {
  pl_id : nat;          (* the [id] argument: the creating epoch *)
  pl_station : string;
  pl_freq : string;
  pl_stage : Stage
}.

(** ** The session state *)

Record St : Type := mkSt {
  stationId : nat;
  isPlayingMusic : bool;
  currentStationName : option string;
  currentFrequency : option string;
  pendingBufferPromise : option nat;
  timer : option (N * nat);                        (* deadline, myId *)
  debounceTimer : option (N * string * string);    (* deadline, stationName, frequency *)
  currentSource : option nat;
  now : N;
  pipelines : list Pipeline;
  triggers : list (nat * nat);                     (* myId, awaited promise *)
  sources : list (nat * nat);                      (* source node, gain node *)
  nextNode : nat;
  log : list Ev
}.

Definition init : St :=
  {| stationId := 0; isPlayingMusic := false; currentStationName := None;
     currentFrequency := None; pendingBufferPromise := None; timer := None;
     debounceTimer := None; currentSource := None; now := 0; pipelines := [];
     triggers := []; sources := []; nextNode := 0; log := [] |}.

Definition set_stationId (s : St) (v : nat) : St :=
  {| stationId := v; isPlayingMusic := isPlayingMusic s; currentStationName := currentStationName s; currentFrequency := currentFrequency s; pendingBufferPromise := pendingBufferPromise s; timer := timer s; debounceTimer := debounceTimer s; currentSource := currentSource s; now := now s; pipelines := pipelines s; triggers := triggers s; sources := sources s; nextNode := nextNode s; log := log s |}.

Definition set_isPlayingMusic (s : St) (v : bool) : St :=
  {| stationId := stationId s; isPlayingMusic := v; currentStationName := currentStationName s; currentFrequency := currentFrequency s; pendingBufferPromise := pendingBufferPromise s; timer := timer s; debounceTimer := debounceTimer s; currentSource := currentSource s; now := now s; pipelines := pipelines s; triggers := triggers s; sources := sources s; nextNode := nextNode s; log := log s |}.

Definition set_currentStationName (s : St) (v : option string) : St :=
  {| stationId := stationId s; isPlayingMusic := isPlayingMusic s; currentStationName := v; currentFrequency := currentFrequency s; pendingBufferPromise := pendingBufferPromise s; timer := timer s; debounceTimer := debounceTimer s; currentSource := currentSource s; now := now s; pipelines := pipelines s; triggers := triggers s; sources := sources s; nextNode := nextNode s; log := log s |}.

Definition set_currentFrequency (s : St) (v : option string) : St :=
  {| stationId := stationId s; isPlayingMusic := isPlayingMusic s; currentStationName := currentStationName s; currentFrequency := v; pendingBufferPromise := pendingBufferPromise s; timer := timer s; debounceTimer := debounceTimer s; currentSource := currentSource s; now := now s; pipelines := pipelines s; triggers := triggers s; sources := sources s; nextNode := nextNode s; log := log s |}.

Definition set_pendingBufferPromise (s : St) (v : option nat) : St :=
  {| stationId := stationId s; isPlayingMusic := isPlayingMusic s; currentStationName := currentStationName s; currentFrequency := currentFrequency s; pendingBufferPromise := v; timer := timer s; debounceTimer := debounceTimer s; currentSource := currentSource s; now := now s; pipelines := pipelines s; triggers := triggers s; sources := sources s; nextNode := nextNode s; log := log s |}.

Definition set_timer (s : St) (v : option (N * nat)) : St :=
  {| stationId := stationId s; isPlayingMusic := isPlayingMusic s; currentStationName := currentStationName s; currentFrequency := currentFrequency s; pendingBufferPromise := pendingBufferPromise s; timer := v; debounceTimer := debounceTimer s; currentSource := currentSource s; now := now s; pipelines := pipelines s; triggers := triggers s; sources := sources s; nextNode := nextNode s; log := log s |}.

Definition set_debounceTimer (s : St) (v : option (N * string * string)) : St :=
  {| stationId := stationId s; isPlayingMusic := isPlayingMusic s; currentStationName := currentStationName s; currentFrequency := currentFrequency s; pendingBufferPromise := pendingBufferPromise s; timer := timer s; debounceTimer := v; currentSource := currentSource s; now := now s; pipelines := pipelines s; triggers := triggers s; sources := sources s; nextNode := nextNode s; log := log s |}.

Definition set_currentSource (s : St) (v : option nat) : St :=
  {| stationId := stationId s; isPlayingMusic := isPlayingMusic s; currentStationName := currentStationName s; currentFrequency := currentFrequency s; pendingBufferPromise := pendingBufferPromise s; timer := timer s; debounceTimer := debounceTimer s; currentSource := v; now := now s; pipelines := pipelines s; triggers := triggers s; sources := sources s; nextNode := nextNode s; log := log s |}.

Definition set_now (s : St) (v : N) : St :=
  {| stationId := stationId s; isPlayingMusic := isPlayingMusic s; currentStationName := currentStationName s; currentFrequency := currentFrequency s; pendingBufferPromise := pendingBufferPromise s; timer := timer s; debounceTimer := debounceTimer s; currentSource := currentSource s; now := v; pipelines := pipelines s; triggers := triggers s; sources := sources s; nextNode := nextNode s; log := log s |}.

Definition set_pipelines (s : St) (v : list Pipeline) : St :=
  {| stationId := stationId s; isPlayingMusic := isPlayingMusic s; currentStationName := currentStationName s; currentFrequency := currentFrequency s; pendingBufferPromise := pendingBufferPromise s; timer := timer s; debounceTimer := debounceTimer s; currentSource := currentSource s; now := now s; pipelines := v; triggers := triggers s; sources := sources s; nextNode := nextNode s; log := log s |}.

Definition set_triggers (s : St) (v : list (nat * nat)) : St :=
  {| stationId := stationId s; isPlayingMusic := isPlayingMusic s; currentStationName := currentStationName s; currentFrequency := currentFrequency s; pendingBufferPromise := pendingBufferPromise s; timer := timer s; debounceTimer := debounceTimer s; currentSource := currentSource s; now := now s; pipelines := pipelines s; triggers := v; sources := sources s; nextNode := nextNode s; log := log s |}.

Definition set_sources (s : St) (v : list (nat * nat)) : St :=
  {| stationId := stationId s; isPlayingMusic := isPlayingMusic s; currentStationName := currentStationName s; currentFrequency := currentFrequency s; pendingBufferPromise := pendingBufferPromise s; timer := timer s; debounceTimer := debounceTimer s; currentSource := currentSource s; now := now s; pipelines := pipelines s; triggers := triggers s; sources := v; nextNode := nextNode s; log := log s |}.

Definition set_nextNode (s : St) (v : nat) : St :=
  {| stationId := stationId s; isPlayingMusic := isPlayingMusic s; currentStationName := currentStationName s; currentFrequency := currentFrequency s; pendingBufferPromise := pendingBufferPromise s; timer := timer s; debounceTimer := debounceTimer s; currentSource := currentSource s; now := now s; pipelines := pipelines s; triggers := triggers s; sources := sources s; nextNode := v; log := log s |}.

Definition set_log (s : St) (v : list Ev) : St :=
  {| stationId := stationId s; isPlayingMusic := isPlayingMusic s; currentStationName := currentStationName s; currentFrequency := currentFrequency s; pendingBufferPromise := pendingBufferPromise s; timer := timer s; debounceTimer := debounceTimer s; currentSource := currentSource s; now := now s; pipelines := pipelines s; triggers := triggers s; sources := sources s; nextNode := nextNode s; log := v |}.

Definition add_log (s : St) (ev : Ev) : St := set_log s (ev :: log s).

Fixpoint update_nth {A} (n : nat) (f : A -> A) (l : list A) : list A :=
  match n, l with
  | _, [] => []
  | 0, x :: l' => f x :: l'
  | S n', x :: l' => x :: update_nth n' f l'
  end.

Fixpoint remove_nth {A} (n : nat) (l : list A) : list A :=
  match n, l with
  | _, [] => []
  | 0, _ :: l' => l'
  | S n', x :: l' => x :: remove_nth n' l'
  end.

(** ** The class's methods *)

(** The two literal delays of the source: the countdown of [startTimer] and
    the debounce of [onStationChange]. *)
Definition D_announce : N := 15000.
Definition D_settle : N := 800.

(** [private stopTimer()] *)
Definition stopTimer (s : St) : St :=
  match timer s with
  | Some _ => set_timer s None          (* clearTimeout; this.timer = null *)
  | None => s
  end.

(** [private startTimer()] *)
Definition startTimer (s : St) : St :=
  let s := stopTimer s in
  if isPlayingMusic s && truthy_str (currentStationName s)
  then set_timer s (Some ((now s + D_announce)%N, stationId s))
  else s.

(** [setMusicPlaying(playing)] *)
Definition setMusicPlaying (playing : bool) (s : St) : St :=
  let s := set_isPlayingMusic s playing in
  if playing then
    if truthy_str (currentStationName s) then startTimer s else s
  else stopTimer s.

(** [this.currentStationName === stationName] *)
Definition same_station (cur : option string) (name : string) : bool :=
  match cur with Some c => String.eqb c name | None => false end.

(** [onStationChange(stationName, frequency)] *)
Definition onStationChange (stationName frequency : string) (s : St) : St :=
  if same_station (currentStationName s) stationName then s else
  let s := set_currentStationName s (Some stationName) in
  let s := set_currentFrequency s (Some frequency) in
  let s := set_stationId s (S (stationId s)) in
  let s := set_pendingBufferPromise s None in
  let s := stopTimer s in
  let s := match debounceTimer s with
           | Some _ => set_debounceTimer s None
           | None => s
           end in
  let s := if isPlayingMusic s then startTimer s else s in
  set_debounceTimer s (Some ((now s + D_settle)%N, stationName, frequency)).

(** [generateAnnouncement(id, station, freq)] up to its first [await]: the
    script request is issued and a fresh promise is returned. *)
Definition generateAnnouncement (id : nat) (station freq : string) (s : St)
    : St * nat :=
  let p := List.length (pipelines s) in
  (add_log (set_pipelines s (pipelines s ++ [mkPipeline id station freq SScript]))
           (EvGenRequest id station freq (now s)), p).

(** The debounce callback:
    [this.pendingBufferPromise = this.generateAnnouncement(this.stationId, stationName, frequency)]. *)
Definition debounce_fire (stationName frequency : string) (s : St) : St :=
  let s := set_debounceTimer s None in
  let '(s, p) := generateAnnouncement (stationId s) stationName frequency s in
  set_pendingBufferPromise s (Some p).

(** [playPendingAnnouncement(id)] up to [await this.pendingBufferPromise]. *)
Definition playPendingAnnouncement_start (id : nat) (s : St) : St :=
  if negb (stationId s =? id) || negb (isPlayingMusic s) then s else
  match pendingBufferPromise s with
  | None => s
  | Some p => set_triggers s (triggers s ++ [(id, p)])
  end.

(** The countdown callback: [await this.playPendingAnnouncement(myId)]. *)
Definition countdown_fire (myId : nat) (s : St) : St :=
  let s := set_timer s None in
  let s := add_log s (EvCountdownFire myId (now s)) in
  playPendingAnnouncement_start myId s.

(** *** The continuations of [generateAnnouncement] *)

(** [try { ... } catch (e) { console.error(...); return null; }] around the
    body; a continuation returns the next suspension point or the value. *)
Definition gen_catch (body : Exc Stage) : Stage * list Ev :=
  match body with
  | Ret st => (st, [])
  | Throw => (SDone (Fulfilled None), [EvLog "Radio Announcer Gen Error:"%string])
  end.

(** After [await generateContent(script)]; [resp] is [scriptResponse.text]
    (or the rejection of the request). *)
Definition after_script (cur id : nat) (resp : Exc (option string)) : Exc Stage :=
  text <- resp ;;
  if negb (cur =? id) then Ret (SDone (Fulfilled None)) else
  match option_map js_trim text with
  | Some script =>
      if String.eqb script ""%string then Ret (SDone (Fulfilled None))
      else Ret (STts script)
  | None => Ret (SDone (Fulfilled None))
  end.

(** After [await generateContent(tts)]; [resp] is
    [ttsResponse.candidates?.[0]?.content?.parts?.[0]?.inlineData?.data]. *)
Definition after_tts (cur id : nat) (resp : Exc (option string)) : Exc Stage :=
  audioData <- resp ;;
  if negb (cur =? id) then Ret (SDone (Fulfilled None)) else
  match audioData with
  | Some d => if String.eqb d ""%string then Ret (SDone (Fulfilled None))
              else Ret (SDecode d)
  | None => Ret (SDone (Fulfilled None))
  end.

(** After [await decodeAudioData(decode(audioData), ...)]: [return audioBuffer]. *)
Definition after_decode (resp : Exc AudioBuffer) : Exc Stage :=
  audioBuffer <- resp ;;
  Ret (SDone (Fulfilled (Some audioBuffer))).

(** What an external call of a stage delivered. *)
Inductive Outcome : Type :=
| OScript (r : Exc (option string))
| OTts (r : Exc (option string))
| ODecode (r : Exc AudioBuffer).

(** Resuming a pipeline suspended at its stage, in epoch [cur]. *)
Definition pipeline_step (cur : nat) (pl : Pipeline) (o : Outcome)
    : option (Stage * list Ev) :=
  match pl_stage pl, o with
  | SScript, OScript r => Some (gen_catch (after_script cur (pl_id pl) r))
  | STts _, OTts r => Some (gen_catch (after_tts cur (pl_id pl) r))
  | SDecode _, ODecode r => Some (gen_catch (after_decode r))
  | _, _ => None
  end.

(** *** The continuation of [playPendingAnnouncement] *)

Inductive GraphOutcome : Type := GraphOk | GraphFail.

Definition await_result {A} (r : PromiseResult A) : Exc A :=
  match r with Fulfilled a => Ret a | Rejected => Throw end.

(** Create the gain node and the buffer source, connect them, [start()],
    and [this.currentSource = source]. *)
Definition start_playback (id p : nat) (b : AudioBuffer) (s : St) : St :=
  let src := nextNode s in
  let gain := S src in
  let s := set_sources s ((src, gain) :: sources s) in
  let s := set_nextNode s (S gain) in
  let s := set_currentSource s (Some src) in
  add_log s (EvPlay id p b (now s)).

Definition playPending_body (id p : nat) (r : PromiseResult (option AudioBuffer))
    (g : GraphOutcome) (s : St) : Exc St :=
  buffer <- await_result r ;;
  if negb (stationId s =? id) || negb (isPlayingMusic s) then Ret s else
  match buffer with
  | None => Ret s
  | Some b => match g with
              | GraphFail => Throw
              | GraphOk => Ret (start_playback id p b s)
              end
  end.

(** [try { ... } catch (e) { console.error("Error playing announcement", e) }];
    the second component is how the [async] method's promise settles. *)
Definition playPendingAnnouncement_resume (id p : nat)
    (r : PromiseResult (option AudioBuffer)) (g : GraphOutcome) (s : St)
    : St * PromiseResult unit :=
  match playPending_body id p r g s with
  | Ret s' => (s', Fulfilled tt)
  | Throw => (add_log s (EvLog "Error playing announcement"%string), Fulfilled tt)
  end.

(** [source.onended]. *)
Definition source_onended (src gain : nat) (s : St) : St :=
  let s := match currentSource s with
           | Some c => if c =? src then set_currentSource s None else s
           | None => s
           end in
  add_log (add_log s (EvDisconnect src)) (EvDisconnect gain).

(** ** The event loop *)

(** One event the runtime may deliver next. *)
Inductive Action : Type :=
| AStationChange (stationName frequency : string)  (* onStationChange *)
| ASetMusicPlaying (playing : bool)                (* setMusicPlaying *)
| ATick (t : N)                 (* the clock advances to [t] *)
| AFireCountdown                (* the countdown timer fires *)
| AFireDebounce                 (* the debounce timer fires *)
| APipeline (i : nat) (o : Outcome)     (* pipeline [i] resumes with [o] *)
| AResume (k : nat) (g : GraphOutcome)  (* the [k]-th suspended trigger resumes *)
| AEnded (k : nat).             (* the [k]-th playing source ends *)

Definition timer_allows (t : N) (o : option (N * nat)) : bool :=
  match o with Some (dl, _) => N.leb t dl | None => true end.

Definition debounce_allows (t : N) (o : option (N * string * string)) : bool :=
  match o with Some (dl, _, _) => N.leb t dl | None => true end.

(** The pipeline record with its suspension point replaced. *)
Definition with_stage (st : Stage) (q : Pipeline) : Pipeline :=
  mkPipeline (pl_id q) (pl_station q) (pl_freq q) st.

Definition exec_action (s : St) (a : Action) : option St :=
  match a with
  | AStationChange n f => Some (onStationChange n f s)
  | ASetMusicPlaying b => Some (setMusicPlaying b s)
  | ATick t =>
      if N.leb (now s) t && timer_allows t (timer s) && debounce_allows t (debounceTimer s)
      then Some (set_now s t) else None
  | AFireCountdown =>
      match timer s with
      | Some (dl, myId) => if N.eqb dl (now s) then Some (countdown_fire myId s) else None
      | None => None
      end
  | AFireDebounce =>
      match debounceTimer s with
      | Some (dl, n, f) => if N.eqb dl (now s) then Some (debounce_fire n f s) else None
      | None => None
      end
  | APipeline i o =>
      match nth_error (pipelines s) i with
      | Some pl =>
          match pipeline_step (stationId s) pl o with
          | Some (st, evs) =>
              Some (set_log
                      (set_pipelines s (update_nth i (with_stage st) (pipelines s)))
                      (evs ++ log s))
          | None => None
          end
      | None => None
      end
  | AResume k g =>
      match nth_error (triggers s) k with
      | Some (id, p) =>
          match nth_error (pipelines s) p with
          | Some pl =>
              match pl_stage pl with
              | SDone r =>
                  Some (fst (playPendingAnnouncement_resume id p r g
                               (set_triggers s (remove_nth k (triggers s)))))
              | _ => None
              end
          | None => None
          end
      | None => None
      end
  | AEnded k =>
      match nth_error (sources s) k with
      | Some (src, gain) =>
          Some (source_onended src gain (set_sources s (remove_nth k (sources s))))
      | None => None
      end
  end.

(** What an outside observer of the class sees of an action: a call of one of
    the two entry points (with the time of the call), or an internal step. *)
Inductive label : Type :=
| LStation (stationName frequency : string) (t : N)
| LPlaying (playing : bool)
| LTau.

Definition label_of (s : St) (a : Action) : label :=
  match a with
  | AStationChange n f => LStation n f (now s)
  | ASetMusicPlaying b => LPlaying b
  | _ => LTau
  end.

Inductive run : St -> list label -> St -> Prop :=
| run_nil s : run s [] s
| run_cons s a s1 ls s2 :
    exec_action s a = Some s1 -> run s1 ls s2 -> run s (label_of s a :: ls) s2.

Definition reachable (s : St) : Prop := exists ls, run init ls s.

(** Executing a chosen schedule of actions. *)
Fixpoint exec_actions (s : St) (acts : list Action) : option St :=
  match acts with
  | [] => Some s
  | a :: acts' =>
      match exec_action s a with
      | Some s1 => exec_actions s1 acts'
      | None => None
      end
  end.

Fixpoint labels_of (s : St) (acts : list Action) : list label :=
  match acts with
  | [] => []
  | a :: acts' =>
      match exec_action s a with
      | Some s1 => label_of s a :: labels_of s1 acts'
      | None => []
      end
  end.


(** ** Basic facts about the transitions *)

(** Case analysis on a state record, so that the setters compute. *)
Ltac destruct_st s :=
  destruct s as [sid play csn cfreq pend tm db csrc clk pls trs srcs nn lg].

Lemma run_app s1 l1 s2 l2 s3 :
  run s1 l1 s2 -> run s2 l2 s3 -> run s1 (l1 ++ l2) s3.
Proof.
  induction 1 as [|s a s1 ls s2 E R IH]; intros H2; simpl; [exact H2 | econstructor; eauto].
Qed.

Lemma exec_actions_run s acts s' :
  exec_actions s acts = Some s' -> run s (labels_of s acts) s'.
Proof.
  revert s; induction acts as [|a acts IH]; intros s H; simpl in *.
  - injection H as <-; constructor.
  - destruct (exec_action s a) as [s1|] eqn:E; [|discriminate].
    econstructor; eauto.
Qed.

Lemma run_reachable s ls s' : reachable s -> run s ls s' -> reachable s'.
Proof. intros [l0 H0] H; exists (l0 ++ ls); eapply run_app; eauto. Qed.

(** The fields an operation leaves alone. *)
Record frame (s s' : St) : Prop := {
  fr_pipelines : pipelines s' = pipelines s;
  fr_triggers : triggers s' = triggers s;
  fr_sources : sources s' = sources s;
  fr_log : log s' = log s;
  fr_now : now s' = now s
}.

Lemma stopTimer_fields s :
  frame s (stopTimer s) /\ timer (stopTimer s) = None /\
  stationId (stopTimer s) = stationId s /\
  isPlayingMusic (stopTimer s) = isPlayingMusic s /\
  currentStationName (stopTimer s) = currentStationName s /\
  pendingBufferPromise (stopTimer s) = pendingBufferPromise s /\
  debounceTimer (stopTimer s) = debounceTimer s.
Proof. unfold stopTimer; destruct (timer s) eqn:E; repeat split; auto. Qed.

Lemma startTimer_fields s :
  frame s (startTimer s) /\
  timer (startTimer s) =
    (if isPlayingMusic s && truthy_str (currentStationName s)
     then Some ((now s + D_announce)%N, stationId s) else None) /\
  stationId (startTimer s) = stationId s /\
  isPlayingMusic (startTimer s) = isPlayingMusic s /\
  currentStationName (startTimer s) = currentStationName s /\
  pendingBufferPromise (startTimer s) = pendingBufferPromise s /\
  debounceTimer (startTimer s) = debounceTimer s.
Proof.
  unfold startTimer.
  destruct (stopTimer_fields s) as [[F1 F2 F3 F4 F5] (T & I & P & C & B & D)].
  rewrite P, C.
  destruct (isPlayingMusic s && truthy_str (currentStationName s)) eqn:E;
    repeat split; cbn; congruence.
Qed.

Lemma setMusicPlaying_fields b s :
  frame s (setMusicPlaying b s) /\
  timer (setMusicPlaying b s) =
    (if b then (if truthy_str (currentStationName s)
                then Some ((now s + D_announce)%N, stationId s) else timer s)
     else None) /\
  stationId (setMusicPlaying b s) = stationId s /\
  isPlayingMusic (setMusicPlaying b s) = b /\
  currentStationName (setMusicPlaying b s) = currentStationName s /\
  pendingBufferPromise (setMusicPlaying b s) = pendingBufferPromise s /\
  debounceTimer (setMusicPlaying b s) = debounceTimer s.
Proof.
  unfold setMusicPlaying; destruct b; cbn.
  - destruct (truthy_str (currentStationName s)) eqn:T.
    + destruct (startTimer_fields (set_isPlayingMusic s true))
        as [[F1 F2 F3 F4 F5] (T1 & I & P & C & B & D)].
      cbn in *; rewrite T in T1; cbn in T1.
      repeat split; cbn in *; congruence.
    + repeat split; reflexivity.
  - destruct (stopTimer_fields (set_isPlayingMusic s false))
      as [[F1 F2 F3 F4 F5] (T & I & P & C & B & D)].
    cbn in *; repeat split; cbn in *; congruence.
Qed.

Lemma onStationChange_fields n f s :
  frame s (onStationChange n f s) /\
  (same_station (currentStationName s) n = true -> onStationChange n f s = s) /\
  (same_station (currentStationName s) n = false ->
     stationId (onStationChange n f s) = S (stationId s) /\
     currentStationName (onStationChange n f s) = Some n /\
     isPlayingMusic (onStationChange n f s) = isPlayingMusic s /\
     pendingBufferPromise (onStationChange n f s) = None /\
     debounceTimer (onStationChange n f s) = Some ((now s + D_settle)%N, n, f) /\
     timer (onStationChange n f s) =
       (if isPlayingMusic s && truthy_str (Some n)
        then Some ((now s + D_announce)%N, S (stationId s)) else None)).
Proof.
  unfold onStationChange.
  destruct (same_station (currentStationName s) n) eqn:E.
  { split; [constructor; reflexivity | split; [reflexivity | discriminate]]. }
  unfold startTimer, stopTimer; destruct_st s; cbn in *.
  destruct tm as [t0|]; destruct db as [d0|]; destruct play; cbn;
    destruct (String.eqb n ""%string); cbn;
    (split; [constructor; reflexivity | split; [discriminate | intros _; repeat split]]).
Qed.

(** ** List facts *)

Lemma nth_error_update_nth {A} (l : list A) i j f :
  nth_error (update_nth i f l) j =
  if Nat.eqb i j then option_map f (nth_error l j) else nth_error l j.
Proof.
  revert i j; induction l as [|x l IH]; intros [|i] [|j]; cbn;
    try rewrite IH; try destruct (Nat.eqb _ _); reflexivity.
Qed.

Lemma in_remove_nth {A} (l : list A) k x : In x (remove_nth k l) -> In x l.
Proof.
  revert k; induction l as [|y l IH]; intros [|k]; cbn; auto.
  intros [->|H]; eauto.
Qed.

Lemma nth_error_snoc {A} (l : list A) x p y :
  nth_error l p = Some y -> nth_error (l ++ [x]) p = Some y.
Proof.
  intros H; rewrite nth_error_app1; [exact H|].
  apply nth_error_Some; congruence.
Qed.

Lemma nth_error_snoc_last {A} (l : list A) x :
  nth_error (l ++ [x]) (List.length l) = Some x.
Proof. rewrite nth_error_app2, Nat.sub_diag; reflexivity. Qed.

(** ** The invariant of reachable states *)

Definition no_play (evs : list Ev) : Prop :=
  forall e p b t, ~ In (EvPlay e p b t) evs.

Record Inv (s : St) : Prop := {
  inv_timer : forall dl id, timer s = Some (dl, id) ->
    id = stationId s /\ truthy_str (currentStationName s) = true /\ (now s <= dl)%N;
  inv_debounce : forall dl n f, debounceTimer s = Some (dl, n, f) ->
    (now s <= dl)%N /\ pendingBufferPromise s = None;
  inv_pending : forall p, pendingBufferPromise s = Some p ->
    exists pl, nth_error (pipelines s) p = Some pl /\ pl_id pl = stationId s;
  inv_pipelines : forall pl, In pl (pipelines s) -> pl_id pl <= stationId s;
  inv_triggers : forall id p, In (id, p) (triggers s) ->
    exists pl, nth_error (pipelines s) p = Some pl /\ pl_id pl = id /\
      (id = stationId s -> pendingBufferPromise s = Some p /\
                           truthy_str (currentStationName s) = true);
  inv_plays : forall e p b t, In (EvPlay e p b t) (log s) ->
    exists pl, nth_error (pipelines s) p = Some pl /\ pl_id pl = e /\
      (e = stationId s -> pendingBufferPromise s = Some p /\
                          pl_stage pl = SDone (Fulfilled (Some b)) /\
                          truthy_str (currentStationName s) = true)
}.

Lemma Inv_init : Inv init.
Proof. split; cbn; intros; try discriminate; contradiction. Qed.

(** A step that touches none of the fields the invariant reads, except for
    dropping triggers and logging no playback. *)
Lemma Inv_log_only s s' evs :
  Inv s ->
  stationId s' = stationId s -> timer s' = timer s ->
  debounceTimer s' = debounceTimer s ->
  pendingBufferPromise s' = pendingBufferPromise s ->
  pipelines s' = pipelines s ->
  (forall x, In x (triggers s') -> In x (triggers s)) ->
  currentStationName s' = currentStationName s -> now s' = now s ->
  log s' = evs ++ log s -> no_play evs -> Inv s'.
Proof.
  intros [It Id Ip Ipl Itr Iev] E1 E2 E3 E4 E5 E6 E7 E8 E9 E10; split.
  - intros dl id H; rewrite E2 in H; rewrite E1, E7, E8; auto.
  - intros dl n f H; rewrite E3 in H; rewrite E8, E4; eauto.
  - intros p H; rewrite E4 in H; rewrite E5, E1; auto.
  - intros pl H; rewrite E5 in H; rewrite E1; auto.
  - intros id p H; apply E6 in H; rewrite E5, E1, E4, E7; auto.
  - intros e p b t H; rewrite E9 in H; apply in_app_or in H as [H|H];
      [exfalso; eapply E10; eauto|].
    rewrite E5, E1, E4, E7; eauto.
Qed.

Lemma nth_In_pl s p pl :
  Inv s -> nth_error (pipelines s) p = Some pl -> pl_id pl <= stationId s.
Proof. intros I H; apply (inv_pipelines _ I), (nth_error_In _ _ H). Qed.

Lemma Inv_onStationChange n f s : Inv s -> Inv (onStationChange n f s).
Proof.
  intros I.
  destruct (onStationChange_fields n f s) as [[F1 F2 F3 F4 F5] [Same Diff]].
  destruct (same_station (currentStationName s) n) eqn:E; [rewrite Same; auto|].
  destruct (Diff eq_refl) as (Sid & Cur & Pl & Pend & Db & Tm).
  destruct I as [It Id Ip Ipl Itr Iev]; split.
  - intros dl id H; rewrite Tm in H.
    destruct (isPlayingMusic s && truthy_str (Some n)) eqn:C; [|discriminate].
    injection H as <- <-; apply andb_prop in C as [_ C].
    rewrite Sid, Cur, F5; repeat split; auto; lia.
  - intros dl n' f' H; rewrite Db in H; injection H as <- <- <-.
    rewrite F5, Pend; split; [lia | reflexivity].
  - intros p H; rewrite Pend in H; discriminate.
  - intros pl H; rewrite F1 in H; rewrite Sid; apply Ipl in H; lia.
  - intros id p H; rewrite F2 in H.
    destruct (Itr id p H) as (pl & N & Id' & _).
    exists pl; rewrite F1, Sid; split; [exact N | split; [exact Id' |]].
    intros ->; exfalso; apply (nth_error_In _ _), Ipl in N; lia.
  - intros e p b t H; rewrite F4 in H.
    destruct (Iev e p b t H) as (pl & N & Id' & _).
    exists pl; rewrite F1, Sid; split; [exact N | split; [exact Id' |]].
    intros ->; exfalso; apply (nth_error_In _ _), Ipl in N; lia.
Qed.

Lemma Inv_setMusicPlaying b s : Inv s -> Inv (setMusicPlaying b s).
Proof.
  intros I.
  destruct (setMusicPlaying_fields b s)
    as [[F1 F2 F3 F4 F5] (Tm & Sid & Pl & Cur & Pend & Db)].
  destruct I as [It Id Ip Ipl Itr Iev]; split.
  - intros dl id H; rewrite Tm in H; rewrite Sid, Cur, F5.
    destruct b; [|discriminate].
    destruct (truthy_str (currentStationName s)) eqn:C; auto.
    injection H as <- <-; repeat split; auto; lia.
  - intros dl n f H; rewrite Db in H; rewrite F5, Pend; eauto.
  - intros p H; rewrite Pend in H; rewrite F1, Sid; auto.
  - intros pl H; rewrite F1 in H; rewrite Sid; auto.
  - intros id p H; rewrite F2 in H; rewrite F1, Sid, Pend, Cur; auto.
  - intros e p b' t H; rewrite F4 in H; rewrite F1, Sid, Pend, Cur; eauto.
Qed.

Lemma Inv_tick s t :
  Inv s -> N.leb (now s) t = true -> timer_allows t (timer s) = true ->
  debounce_allows t (debounceTimer s) = true -> Inv (set_now s t).
Proof.
  intros [It Id Ip Ipl Itr Iev] _ Ht Hd; split; cbn; auto.
  - intros dl id H; rewrite H in Ht; cbn in Ht; apply N.leb_le in Ht.
    destruct (It dl id H) as (? & ? & _); auto.
  - intros dl n f H; rewrite H in Hd; cbn in Hd; apply N.leb_le in Hd.
    destruct (Id dl n f H) as (_ & ?); auto.
Qed.

Lemma Inv_countdown_fire s dl myId :
  Inv s -> timer s = Some (dl, myId) -> Inv (countdown_fire myId s).
Proof.
  intros I T; destruct (inv_timer s I dl myId T) as (-> & Tr & _).
  destruct I as [It Id Ip Ipl Itr Iev].
  unfold countdown_fire, playPendingAnnouncement_start, add_log.
  destruct_st s; cbn in *; rewrite Nat.eqb_refl; cbn.
  destruct play; cbn; [destruct pend as [p|] eqn:P|]; split; cbn; auto;
    try (intros; discriminate);
    try (intros e p' b t [H|H]; [discriminate | eauto]).
  intros id p' H; apply in_app_or in H as [H|[H|[]]]; auto.
  injection H as <- <-; destruct (Ip p eq_refl) as (pl & N & Id').
  exists pl; auto.
Qed.

Lemma Inv_debounce_fire s dl n f :
  Inv s -> debounceTimer s = Some (dl, n, f) -> Inv (debounce_fire n f s).
Proof.
  intros I D; destruct (inv_debounce s I dl n f D) as (_ & P).
  destruct I as [It Id Ip Ipl Itr Iev].
  unfold debounce_fire, generateAnnouncement, add_log.
  destruct_st s; cbn in *; subst pend; split; cbn; auto.
  - intros; discriminate.
  - intros p H; injection H as <-; eexists; split;
      [apply nth_error_snoc_last | reflexivity].
  - intros pl H; apply in_app_or in H as [H|[<-|[]]]; cbn; auto.
  - intros id p H; destruct (Itr id p H) as (pl & N & Id' & Cur).
    exists pl; split; [apply nth_error_snoc; exact N | split; [exact Id' |]].
    intros E; destruct (Cur E); discriminate.
  - intros e p b t [H|H]; [discriminate|].
    destruct (Iev e p b t H) as (pl & N & Id' & Cur).
    exists pl; split; [apply nth_error_snoc; exact N | split; [exact Id' |]].
    intros E; destruct (Cur E); discriminate.
Qed.

Lemma in_update_nth {A} (l : list A) i f x :
  In x (update_nth i f l) -> In x l \/ exists y, In y l /\ x = f y.
Proof.
  revert i; induction l as [|y l IH]; intros [|i]; cbn; auto.
  - intros [<-|H]; eauto.
  - intros [<-|H]; auto; destruct (IH i H) as [H'|(z & Hz & ->)]; eauto.
Qed.

Lemma nth_update_with_stage l i st p pl' :
  nth_error (update_nth i (with_stage st) l) p = Some pl' ->
  exists pl0, nth_error l p = Some pl0 /\ pl_id pl' = pl_id pl0 /\
              (i <> p -> pl' = pl0).
Proof.
  rewrite nth_error_update_nth; destruct (Nat.eqb_spec i p) as [<-|Ne].
  - destruct (nth_error l i) as [pl0|]; cbn; intros H; [|discriminate].
    injection H as <-; exists pl0; repeat split; auto; contradiction.
  - intros H; exists pl'; auto.
Qed.

Lemma nth_update_with_stage' l i st p pl0 :
  nth_error l p = Some pl0 ->
  exists pl', nth_error (update_nth i (with_stage st) l) p = Some pl' /\
              pl_id pl' = pl_id pl0 /\ (i <> p -> pl' = pl0).
Proof.
  intros H; rewrite nth_error_update_nth, H; destruct (Nat.eqb_spec i p).
  - eexists; split; [reflexivity|]; split; [reflexivity | contradiction].
  - eexists; split; [reflexivity | auto].
Qed.

Lemma gen_catch_no_play body : no_play (snd (gen_catch body)).
Proof.
  destruct body; cbn; intros e p b t H; [contradiction|].
  destruct H as [H|[]]; discriminate.
Qed.

Lemma pipeline_step_some cur pl o st evs :
  pipeline_step cur pl o = Some (st, evs) ->
  no_play evs /\ (forall r, pl_stage pl <> SDone r).
Proof.
  unfold pipeline_step; destruct (pl_stage pl) eqn:E, o; intros H; try discriminate;
    injection H as H; (split; [change evs with (snd (st, evs)); rewrite <- H;
                                apply gen_catch_no_play
                               | intros r0; discriminate]).
Qed.

Lemma Inv_pipeline s i pl o st evs :
  Inv s -> nth_error (pipelines s) i = Some pl ->
  pipeline_step (stationId s) pl o = Some (st, evs) ->
  Inv (set_log (set_pipelines s (update_nth i (with_stage st) (pipelines s)))
               (evs ++ log s)).
Proof.
  intros [It Id Ip Ipl Itr Iev] Ni Step.
  destruct (pipeline_step_some _ _ _ _ _ Step) as [NP NotDone].
  split; cbn; auto.
  - intros p H; destruct (Ip p H) as (pl0 & N & E).
    destruct (nth_update_with_stage' _ i st _ _ N) as (pl' & N' & E' & _).
    exists pl'; split; congruence.
  - intros x H; apply in_update_nth in H as [H|(y & H & ->)]; auto.
    apply Ipl in H; exact H.
  - intros id p H; destruct (Itr id p H) as (pl0 & N & E & C).
    destruct (nth_update_with_stage' _ i st _ _ N) as (pl' & N' & E' & _).
    exists pl'; split; [exact N' | split; [congruence | exact C]].
  - intros e p b t H; apply in_app_or in H as [H|H]; [exfalso; eapply NP; eauto|].
    destruct (Iev e p b t H) as (pl0 & N & E & C).
    destruct (nth_update_with_stage' _ i st _ _ N) as (pl' & N' & E' & Same).
    exists pl'; split; [exact N' | split; [congruence|]].
    intros Ee; destruct (C Ee) as (Pe & Stg & Tr); repeat split; auto.
    destruct (Nat.eq_dec i p) as [<-|Ne]; [|rewrite Same; auto].
    exfalso; rewrite Ni in N; injection N as <-; eapply NotDone; exact Stg.
Qed.

(** The three ways a resumed trigger ends. *)
Lemma resume_cases id p r g s :
  fst (playPendingAnnouncement_resume id p r g s) = s \/
  (exists msg, fst (playPendingAnnouncement_resume id p r g s) = add_log s (EvLog msg)) \/
  (exists b, r = Fulfilled (Some b) /\ stationId s = id /\ isPlayingMusic s = true /\
     g = GraphOk /\ fst (playPendingAnnouncement_resume id p r g s) = start_playback id p b s).
Proof.
  unfold playPendingAnnouncement_resume, playPending_body.
  destruct r as [[b|]|]; cbn; eauto.
  - destruct (Nat.eqb_spec (stationId s) id), (isPlayingMusic s) eqn:P; cbn; auto.
    destruct g; cbn; eauto 10.
  - destruct (negb (stationId s =? id) || negb (isPlayingMusic s)); auto.
Qed.

Lemma Inv_start_playback s id p b pl :
  Inv s -> nth_error (pipelines s) p = Some pl -> pl_id pl = id ->
  pl_stage pl = SDone (Fulfilled (Some b)) -> stationId s = id ->
  pendingBufferPromise s = Some p -> truthy_str (currentStationName s) = true ->
  Inv (start_playback id p b s).
Proof.
  intros [It Id Ip Ipl Itr Iev] N E Stg Sid Pend Tr.
  unfold start_playback, add_log; split; cbn; auto.
  intros e p' b' t [H|H]; [|eauto].
  injection H as <- <- <- _; exists pl; auto.
Qed.

Lemma Inv_source_onended s src gain :
  Inv s -> Inv (source_onended src gain s).
Proof.
  intros I; unfold source_onended, add_log.
  destruct (currentSource s) as [c|]; [destruct (Nat.eqb c src)|];
    (apply (Inv_log_only s _ [EvDisconnect gain; EvDisconnect src] I);
     [..| intros e p b t [H|[H|[]]]; discriminate]);
    destruct_st s; cbn; auto.
Qed.

Lemma Inv_drop_trigger s k : Inv s -> Inv (set_triggers s (remove_nth k (triggers s))).
Proof.
  intros I; apply (Inv_log_only s _ [] I); cbn; auto.
  - apply in_remove_nth.
  - intros e p b t [].
Qed.

Lemma Inv_resume s k id p pl r g :
  Inv s -> nth_error (triggers s) k = Some (id, p) ->
  nth_error (pipelines s) p = Some pl -> pl_stage pl = SDone r ->
  Inv (fst (playPendingAnnouncement_resume id p r g
              (set_triggers s (remove_nth k (triggers s))))).
Proof.
  intros I K N Stg.
  pose proof (Inv_drop_trigger s k I) as I1.
  set (s1 := set_triggers s (remove_nth k (triggers s))) in *.
  destruct (resume_cases id p r g s1) as [->|[(msg & ->)|(b & -> & Sid & Pl & -> & ->)]].
  - exact I1.
  - apply (Inv_log_only s1 _ [EvLog msg] I1); cbn; auto.
    intros e p' b t [H|[]]; discriminate.
  - destruct (inv_triggers s I id p (nth_error_In _ _ K)) as (pl0 & N0 & E0 & C0).
    rewrite N in N0; injection N0 as <-.
    destruct (C0 (eq_sym Sid)) as (Pend & Tr).
    apply (Inv_start_playback s1 id p b pl I1); auto.
Qed.

Lemma Inv_step s a s' : Inv s -> exec_action s a = Some s' -> Inv s'.
Proof.
  intros I; destruct a as [n f|b|t| | |i o|k g|k]; cbn.
  - intros H; injection H as <-; apply Inv_onStationChange, I.
  - intros H; injection H as <-; apply Inv_setMusicPlaying, I.
  - destruct (N.leb (now s) t) eqn:A, (timer_allows t (timer s)) eqn:B,
      (debounce_allows t (debounceTimer s)) eqn:C; cbn; try discriminate.
    intros H; injection H as <-; apply Inv_tick; auto.
  - destruct (timer s) as [[dl myId]|] eqn:T; [|discriminate].
    destruct (N.eqb dl (now s)); [|discriminate].
    intros H; injection H as <-; eapply Inv_countdown_fire; eauto.
  - destruct (debounceTimer s) as [[[dl n] f]|] eqn:D; [|discriminate].
    destruct (N.eqb dl (now s)); [|discriminate].
    intros H; injection H as <-; eapply Inv_debounce_fire; eauto.
  - destruct (nth_error (pipelines s) i) as [pl|] eqn:N; [|discriminate].
    destruct (pipeline_step (stationId s) pl o) as [[st evs]|] eqn:P; [|discriminate].
    intros H; injection H as <-; eapply Inv_pipeline; eauto.
  - destruct (nth_error (triggers s) k) as [[id p]|] eqn:K; [|discriminate].
    destruct (nth_error (pipelines s) p) as [pl|] eqn:N; [|discriminate].
    destruct (pl_stage pl) eqn:Stg; try discriminate.
    intros H; injection H as <-; eapply Inv_resume; eauto.
  - destruct (nth_error (sources s) k) as [[src gain]|]; [|discriminate].
    intros H; injection H as <-; apply Inv_source_onended.
    apply (Inv_log_only s _ [] I); cbn; auto; intros e p b t [].
Qed.

Lemma Inv_run s ls s' : Inv s -> run s ls s' -> Inv s'.
Proof. intros I R; induction R; eauto using Inv_step. Qed.

Lemma Inv_reachable s : reachable s -> Inv s.
Proof. intros [ls R]; exact (Inv_run _ _ _ Inv_init R). Qed.

(** ** What one step can do *)

Lemma countdown_fire_fields myId s :
  stationId (countdown_fire myId s) = stationId s /\
  isPlayingMusic (countdown_fire myId s) = isPlayingMusic s /\
  pipelines (countdown_fire myId s) = pipelines s /\
  log (countdown_fire myId s) = [EvCountdownFire myId (now s)] ++ log s.
Proof.
  unfold countdown_fire, playPendingAnnouncement_start, add_log; destruct_st s; cbn.
  destruct (Nat.eqb sid myId), play, pend; cbn; auto.
Qed.

Lemma debounce_fire_fields n f s :
  stationId (debounce_fire n f s) = stationId s /\
  isPlayingMusic (debounce_fire n f s) = isPlayingMusic s /\
  pipelines (debounce_fire n f s) =
    pipelines s ++ [mkPipeline (stationId s) n f SScript] /\
  log (debounce_fire n f s) = [EvGenRequest (stationId s) n f (now s)] ++ log s.
Proof. unfold debounce_fire, generateAnnouncement, add_log; destruct_st s; cbn; auto. Qed.

Lemma source_onended_fields src gain s :
  stationId (source_onended src gain s) = stationId s /\
  isPlayingMusic (source_onended src gain s) = isPlayingMusic s /\
  pipelines (source_onended src gain s) = pipelines s /\
  log (source_onended src gain s) = [EvDisconnect gain; EvDisconnect src] ++ log s.
Proof.
  unfold source_onended, add_log; destruct_st s; cbn.
  destruct csrc as [c|]; [destruct (Nat.eqb c src)|]; cbn; auto.
Qed.

(** Every step appends events to the log; a playback event is appended only
    by a trigger resumed with a successful audio graph, when the epoch is the
    trigger's and music is playing. *)
Lemma step_log s a s' :
  exec_action s a = Some s' ->
  stationId s <= stationId s' /\
  (forall p pl, nth_error (pipelines s) p = Some pl ->
     exists pl', nth_error (pipelines s') p = Some pl' /\ pl_id pl' = pl_id pl) /\
  exists evs, log s' = evs ++ log s /\
    forall e p b t, In (EvPlay e p b t) evs ->
      exists k pl, a = AResume k GraphOk /\ nth_error (triggers s) k = Some (e, p) /\
        nth_error (pipelines s) p = Some pl /\ pl_stage pl = SDone (Fulfilled (Some b)) /\
        stationId s = e /\ stationId s' = e /\
        isPlayingMusic s = true /\ isPlayingMusic s' = true /\ t = now s.
Proof.
  destruct a as [n f|b|t| | |i o|k g|k]; cbv beta iota delta [exec_action].
  - intros H; injection H as <-.
    destruct (onStationChange_fields n f s) as [[F1 _ _ F4 _] [Same Diff]].
    destruct (same_station (currentStationName s) n) eqn:E.
    + rewrite Same; auto; split; [lia|]; split; eauto.
      exists []; split; [reflexivity | intros ? ? ? ? []].
    + destruct (Diff eq_refl) as (Sid & _); rewrite Sid, F1, F4.
      split; [lia|]; split; eauto; exists []; split; [reflexivity | intros ? ? ? ? []].
  - intros H; injection H as <-.
    destruct (setMusicPlaying_fields b s) as [[F1 _ _ F4 _] (_ & Sid & _)].
    rewrite Sid, F1, F4; split; [lia|]; split; eauto.
    exists []; split; [reflexivity | intros ? ? ? ? []].
  - destruct (_ && _ && _); [|discriminate]; intros H; injection H as <-; cbn.
    split; [lia|]; split; eauto; exists []; split; [reflexivity | intros ? ? ? ? []].
  - destruct (timer s) as [[dl myId]|]; [|discriminate].
    destruct (N.eqb dl (now s)); [|discriminate]; intros H; injection H as <-.
    destruct (countdown_fire_fields myId s) as (Sid & _ & Pl & Lg).
    rewrite Sid, Pl, Lg; split; [lia|]; split; eauto.
    eexists; split; [reflexivity | intros ? ? ? ? [H|[]]; discriminate].
  - destruct (debounceTimer s) as [[[dl n] f]|]; [|discriminate].
    destruct (N.eqb dl (now s)); [|discriminate]; intros H; injection H as <-.
    destruct (debounce_fire_fields n f s) as (Sid & _ & Pl & Lg).
    rewrite Sid, Pl, Lg; split; [lia|]; split.
    + intros p pl N; exists pl; split; [apply nth_error_snoc; exact N | reflexivity].
    + eexists; split; [reflexivity | intros ? ? ? ? [H|[]]; discriminate].
  - destruct (nth_error (pipelines s) i) as [pl|] eqn:N; [|discriminate].
    destruct (pipeline_step (stationId s) pl o) as [[st evs]|] eqn:P; [|discriminate].
    intros H; injection H as <-; cbn.
    destruct (pipeline_step_some _ _ _ _ _ P) as [NP _].
    split; [lia|]; split.
    + intros p pl0 N0; destruct (nth_update_with_stage' _ i st _ _ N0) as (pl' & ? & ? & _).
      eauto.
    + exists evs; split; [reflexivity | intros e p b t H; exfalso; eapply NP; eauto].
  - destruct (nth_error (triggers s) k) as [[id p]|] eqn:K; [|discriminate].
    destruct (nth_error (pipelines s) p) as [pl|] eqn:N; [|discriminate].
    destruct (pl_stage pl) eqn:Stg; try discriminate.
    intros H; injection H as <-.
    set (s1 := set_triggers s (remove_nth k (triggers s))).
    destruct (resume_cases id p r g s1) as [->|[(msg & ->)|(b & -> & Sid & Pl & -> & ->)]].
    + cbn; split; [lia|]; split; eauto.
      exists []; split; [reflexivity | intros ? ? ? ? []].
    + cbn; split; [lia|]; split; eauto.
      exists [EvLog msg]; split; [reflexivity | intros ? ? ? ? [H|[]]; discriminate].
    + cbn in Sid, Pl; cbn; split; [lia|]; split; eauto.
      exists [EvPlay id p b (now s)]; split; [reflexivity|].
      intros e p' b' t [H|[]]; injection H as <- <- <- <-.
      exists k, pl; repeat split; auto.
  - destruct (nth_error (sources s) k) as [[src gain]|]; [|discriminate].
    intros H; injection H as <-.
    set (s1 := set_sources s (remove_nth k (sources s))).
    assert (E1 : stationId s1 = stationId s /\ pipelines s1 = pipelines s /\ log s1 = log s)
      by (unfold s1; destruct_st s; repeat split).
    destruct E1 as (E1 & E2 & E3).
    destruct (source_onended_fields src gain s1) as (Sid & _ & Pl & Lg).
    rewrite Sid, Pl, Lg, E1, E2, E3; split; [lia|]; split; eauto.
    eexists; split; [reflexivity | intros ? ? ? ? [H|[H|[]]]; discriminate].
Qed.

Lemma run_log s ls s' :
  run s ls s' ->
  stationId s <= stationId s' /\
  (forall p pl, nth_error (pipelines s) p = Some pl ->
     exists pl', nth_error (pipelines s') p = Some pl' /\ pl_id pl' = pl_id pl) /\
  exists evs, log s' = evs ++ log s.
Proof.
  induction 1 as [s|s a s1 ls s2 E R (IH1 & IH2 & evs2 & IH3)].
  - split; [lia|]; split; eauto; exists []; reflexivity.
  - destruct (step_log _ _ _ E) as (S1 & P1 & evs1 & L1 & _).
    split; [lia|]; split.
    + intros p pl N; destruct (P1 p pl N) as (pl1 & N1 & E1).
      destruct (IH2 p pl1 N1) as (pl2 & N2 & E2); exists pl2; split; congruence.
    + exists (evs2 ++ evs1); rewrite IH3, L1, app_assoc; reflexivity.
Qed.

(** How one step changes the list of pipelines: not at all, by starting a new
    one, or by resuming one of them. *)
Lemma step_pipelines s a s' :
  exec_action s a = Some s' ->
  pipelines s' = pipelines s \/
  (exists pl, pipelines s' = pipelines s ++ [pl] /\ pl_stage pl = SScript) \/
  (exists i cur pl o st evs, pipeline_step cur pl o = Some (st, evs) /\
     pipelines s' = update_nth i (with_stage st) (pipelines s)).
Proof.
  destruct a as [n f|b|t| | |i o|k g|k]; cbv beta iota delta [exec_action].
  - intros H; injection H as <-; left; apply (onStationChange_fields n f s).
  - intros H; injection H as <-; left; apply (setMusicPlaying_fields b s).
  - destruct (_ && _ && _); [|discriminate]; intros H; injection H as <-; left; reflexivity.
  - destruct (timer s) as [[dl myId]|]; [|discriminate].
    destruct (N.eqb dl (now s)); [|discriminate]; intros H; injection H as <-.
    left; apply (countdown_fire_fields myId s).
  - destruct (debounceTimer s) as [[[dl n] f]|]; [|discriminate].
    destruct (N.eqb dl (now s)); [|discriminate]; intros H; injection H as <-.
    right; left; eexists; split; [apply (debounce_fire_fields n f s) | reflexivity].
  - destruct (nth_error (pipelines s) i) as [pl|] eqn:N; [|discriminate].
    destruct (pipeline_step (stationId s) pl o) as [[st evs]|] eqn:P; [|discriminate].
    intros H; injection H as <-; right; right; exists i, (stationId s), pl, o, st, evs.
    split; [exact P | reflexivity].
  - destruct (nth_error (triggers s) k) as [[id p]|]; [|discriminate].
    destruct (nth_error (pipelines s) p) as [pl|]; [|discriminate].
    destruct (pl_stage pl); try discriminate.
    intros H; injection H as <-; left.
    destruct (resume_cases id p r g (set_triggers s (remove_nth k (triggers s))))
      as [->|[(msg & ->)|(b & _ & _ & _ & _ & ->)]]; destruct_st s; reflexivity.
  - destruct (nth_error (sources s) k) as [[src gain]|]; [|discriminate].
    intros H; injection H as <-; left.
    unfold source_onended, add_log; destruct_st s; cbn.
    destruct csrc as [c|]; [destruct (Nat.eqb c src)|]; reflexivity.
Qed.

(** Case analysis on every match of a goal. *)
Ltac destruct_matches :=
  repeat match goal with
         | |- context [match ?x with _ => _ end] => destruct x
         end.

(** A resumed pipeline never settles as rejected. *)
Lemma pipeline_step_not_rejected cur pl o st evs :
  pipeline_step cur pl o = Some (st, evs) -> st <> SDone Rejected.
Proof.
  assert (G : forall body, body <> Ret (SDone Rejected) ->
                fst (gen_catch body) <> SDone Rejected)
    by (intros [b|] Hb; cbn; [intros ->; auto | discriminate]).
  unfold pipeline_step; destruct (pl_stage pl), o; intros H; try discriminate;
    injection H as H; change st with (fst (st, evs)); rewrite <- H; apply G;
    unfold after_script, after_tts, after_decode, exc_bind; destruct_matches; discriminate.
Qed.

Definition not_rejected (l : list Pipeline) : Prop :=
  forall pl, In pl l -> pl_stage pl <> SDone Rejected.

Lemma run_not_rejected s ls s' :
  not_rejected (pipelines s) -> run s ls s' -> not_rejected (pipelines s').
Proof.
  intros H0 R; induction R as [s|s a s1 ls s2 E R IH]; auto; apply IH.
  destruct (step_pipelines _ _ _ E) as [->|[(pl & -> & Stg)|(i & cur & pl & o & st & evs & P & ->)]].
  - exact H0.
  - intros x Hx; apply in_app_or in Hx as [Hx|[<-|[]]]; [auto | rewrite Stg; discriminate].
  - intros x Hx; apply in_update_nth in Hx as [Hx|(y & _ & ->)]; auto.
    exact (pipeline_step_not_rejected _ _ _ _ _ P).
Qed.

Lemma reachable_not_rejected s : reachable s -> not_rejected (pipelines s).
Proof. intros [ls R]; apply (run_not_rejected init ls s); [cbn; intros ? []|exact R]. Qed.

(** ** Concrete schedules *)

(** The state reached by a schedule of actions (the start state if one of
    them is not enabled). *)
Definition step_all (s : St) (acts : list Action) : St :=
  match exec_actions s acts with Some s' => s' | None => s end.

Lemma step_all_run s acts :
  exec_actions s acts <> None -> run s (labels_of s acts) (step_all s acts).
Proof.
  unfold step_all; destruct (exec_actions s acts) eqn:E; [intros _ | contradiction].
  apply exec_actions_run; exact E.
Qed.

Lemma step_all_reachable acts :
  exec_actions init acts <> None -> reachable (step_all init acts).
Proof. intros H; exists (labels_of init acts); apply step_all_run; exact H. Qed.

(** Service outcomes used in the schedules below. *)
Definition script_ok : Outcome := OScript (Ret (Some " Welcome to Bossa Nova on 88.0. "%string)).
Definition tts_ok : Outcome := OTts (Ret (Some "UklGRiQAAABXQVZF"%string)).
Definition decode_ok (b : AudioBuffer) : Outcome := ODecode (Ret b).

Definition tune_bossa : Action := AStationChange "Bossa Nova" "88.0".
Definition tune_samba : Action := AStationChange "Samba" "91.5".

(** Tune in, let the debounce timer start generation, and tune away while
    the script request is in flight. *)
Definition stale_acts : list Action := [tune_bossa; ATick 800; AFireDebounce; tune_samba].

(** As above, but the epoch advances while the audio is being decoded. *)
Definition decode_race_acts : list Action :=
  [tune_bossa; ATick 800; AFireDebounce; APipeline 0 script_ok; APipeline 0 tts_ok;
   tune_samba].

(** Music plays; tune in; the whole pipeline succeeds with buffer 7; the
    countdown fires and its trigger awaits the resolved promise. *)
Definition ready_acts : list Action :=
  [ASetMusicPlaying true; tune_bossa; ATick 800; AFireDebounce;
   APipeline 0 script_ok; APipeline 0 tts_ok; APipeline 0 (decode_ok 7);
   ATick 15000; AFireCountdown].

(** Music plays; tune in; the countdown fires while generation is still in
    flight; a pause and a resume of the music arm a second countdown, which
    also fires before generation completes; then both triggers resume. *)
Definition overlap_acts : list Action :=
  [ASetMusicPlaying true; tune_bossa; ATick 800; AFireDebounce;
   ATick 15000; AFireCountdown; ASetMusicPlaying false; ASetMusicPlaying true;
   ATick 30000; AFireCountdown;
   APipeline 0 script_ok; APipeline 0 tts_ok; APipeline 0 (decode_ok 7);
   AResume 0 GraphOk; AResume 0 GraphOk].

(** Tune in and let generation start; the same station is announced again
    by the caller, and time passes. *)
Definition retune_prefix : list Action := [tune_bossa; ATick 800; AFireDebounce].
Definition retune_acts : list Action := [tune_bossa; ATick 2000].

(** Tune in, start the music, let generation start, and listen for 5 s. *)
Definition listening_acts : list Action :=
  [tune_bossa; ASetMusicPlaying true; ATick 800; AFireDebounce; ATick 5000].

(** Music plays before any station is tuned. *)
Definition playing_acts : list Action := [ASetMusicPlaying true].

(** After a station change: generation starts, its script stage completes,
    and the countdown fires. *)
Definition countdown_tail : list Action :=
  [ATick 800; AFireDebounce; APipeline 0 script_ok; ATick 15000; AFireCountdown].

(** Two station changes 500 ms apart, then quiet. *)
Definition coalesce_acts : list Action :=
  [tune_bossa; ATick 500; tune_samba; ATick 1300; AFireDebounce; ATick 2000].

(** As [ready_acts], and the trigger plays the announcement. *)
Definition played_acts : list Action := ready_acts ++ [AResume 0 GraphOk].

(** ** Staleness *)

Lemma stale_run s ls s' p pl :
  Inv s -> run s ls s' -> nth_error (pipelines s) p = Some pl ->
  pl_id pl < stationId s ->
  exists new, log s' = new ++ log s /\ forall e b t, ~ In (EvPlay e p b t) new.
Proof.
  intros I R; revert pl; induction R as [s|s a s1 ls s2 E R IH]; intros pl N Lt.
  - exists []; split; [reflexivity | intros ? ? ? []].
  - destruct (step_log _ _ _ E) as (Le & Pl & evs & L1 & Play).
    destruct (Pl p pl N) as (pl1 & N1 & Id1).
    destruct (IH (Inv_step _ _ _ I E) pl1 N1 ltac:(lia)) as (new & L2 & NP).
    exists (new ++ evs); split; [rewrite L2, L1, app_assoc; reflexivity|].
    intros e b t H; apply in_app_or in H as [H|H]; [exact (NP e b t H)|].
    destruct (Play e p b t H) as (k & pl0 & _ & K & N0 & _ & Sid & _).
    destruct (inv_triggers _ I e p (nth_error_In _ _ K)) as (pl2 & N2 & Id2 & _).
    rewrite N in N2; injection N2 as <-; lia.
Qed.

(** ** Playback *)

Lemma log_add_log s ev : log (add_log s ev) = ev :: log s.
Proof. destruct_st s; reflexivity. Qed.

Lemma start_playback_fields id p b s :
  log (start_playback id p b s) = EvPlay id p b (now s) :: log s /\
  sources (start_playback id p b s) = (nextNode s, S (nextNode s)) :: sources s /\
  currentSource (start_playback id p b s) = Some (nextNode s).
Proof. destruct_st s; repeat split. Qed.

Lemma cons_neq {A} (x : A) l : x :: l <> l.
Proof. intros H; apply (f_equal (@List.length A)) in H; cbn in H; lia. Qed.

(** Whatever a step appends, it holds no playback event when music is not
    playing after it. *)
Lemma step_no_play_paused s a s' evs :
  exec_action s a = Some s' -> log s' = evs ++ log s ->
  isPlayingMusic s' = false -> no_play evs.
Proof.
  intros E L P e p b t H.
  destruct (step_log _ _ _ E) as (_ & _ & evs0 & L0 & Play).
  rewrite L0 in L; apply app_inv_tail in L; subst evs0.
  destruct (Play e p b t H) as (k & pl & _ & _ & _ & _ & _ & _ & _ & P' & _); congruence.
Qed.

(** ** The countdown under internal steps *)

(** Internal steps other than the clock and the countdown leave the countdown
    and the clock alone. *)
Lemma quiet_step_timer s a s' :
  exec_action s a = Some s' ->
  match a with
  | AFireDebounce | APipeline _ _ | AResume _ _ | AEnded _ => True
  | _ => False
  end ->
  timer s' = timer s /\ now s' = now s.
Proof.
  destruct a as [n f|b|t| | |i o|k g|k]; intros E A; try contradiction; revert E;
    cbv beta iota delta [exec_action].
  - destruct (debounceTimer s) as [[[dl n] f]|]; [|discriminate].
    destruct (N.eqb dl (now s)); [|discriminate]; intros H; injection H as <-.
    unfold debounce_fire, generateAnnouncement, add_log; destruct_st s; split; reflexivity.
  - destruct (nth_error (pipelines s) i) as [pl|]; [|discriminate].
    destruct (pipeline_step (stationId s) pl o) as [[st evs]|]; [|discriminate].
    intros H; injection H as <-; split; reflexivity.
  - destruct (nth_error (triggers s) k) as [[id p]|]; [|discriminate].
    destruct (nth_error (pipelines s) p) as [pl|]; [|discriminate].
    destruct (pl_stage pl); try discriminate.
    intros H; injection H as <-.
    destruct (resume_cases id p r g (set_triggers s (remove_nth k (triggers s))))
      as [->|[(msg & ->)|(b & _ & _ & _ & _ & ->)]]; destruct_st s; split; reflexivity.
  - destruct (nth_error (sources s) k) as [[src gain]|]; [|discriminate].
    intros H; injection H as <-.
    unfold source_onended, add_log; destruct_st s; cbn.
    destruct csrc as [c|]; [destruct (Nat.eqb c src)|]; split; reflexivity.
Qed.

(** An internal step keeps an armed countdown armed, with its deadline still
    ahead, or fires it exactly at its deadline. *)
Lemma tau_step_countdown s a s' dl e :
  exec_action s a = Some s' -> label_of s a = LTau ->
  timer s = Some (dl, e) -> (now s <= dl)%N ->
  (timer s' = Some (dl, e) /\ (now s' <= dl)%N) \/ In (EvCountdownFire e dl) (log s').
Proof.
  intros E L T Le.
  destruct a as [n f|b|t| | |i o|k g|k]; try discriminate L.
  - left; revert E; cbv beta iota delta [exec_action]; rewrite T; cbn.
    destruct (N.leb_spec (now s) t) as [H1|H1]; [|discriminate].
    destruct (N.leb_spec t dl) as [H2|H2]; [|discriminate].
    destruct (debounce_allows t (debounceTimer s)); [|discriminate].
    intros H; injection H as <-; split; [exact T|]; exact H2.
  - right; revert E; cbv beta iota delta [exec_action]; rewrite T.
    destruct (N.eqb_spec dl (now s)) as [->|]; [|discriminate]; intros H; injection H as <-.
    destruct (countdown_fire_fields e s) as (_ & _ & _ & ->); left; reflexivity.
  - left; destruct (quiet_step_timer _ _ _ E I) as [-> ->]; auto.
  - left; destruct (quiet_step_timer _ _ _ E I) as [-> ->]; auto.
  - left; destruct (quiet_step_timer _ _ _ E I) as [-> ->]; auto.
  - left; destruct (quiet_step_timer _ _ _ E I) as [-> ->]; auto.
Qed.

Lemma tau_run_countdown s ls s' dl e :
  run s ls s' -> Forall (fun l => l = LTau) ls ->
  (timer s = Some (dl, e) /\ (now s <= dl)%N) \/ In (EvCountdownFire e dl) (log s) ->
  (timer s' = Some (dl, e) /\ (now s' <= dl)%N) \/ In (EvCountdownFire e dl) (log s').
Proof.
  induction 1 as [s|s a s1 ls s2 E R IH]; intros F H; auto.
  inversion F as [|l0 ls0 Hl Fs]; subst; apply IH; [exact Fs|].
  destruct H as [[T Le]|H].
  - exact (tau_step_countdown _ _ _ _ _ E Hl T Le).
  - right; destruct (step_log _ _ _ E) as (_ & _ & evs & -> & _).
    apply in_or_app; right; exact H.
Qed.

(** ** Generation requests and the debounce timer *)

(** The (station, frequency) parameters of the generation requests among
    some events. *)
Fixpoint gen_requests (evs : list Ev) : list (string * string) :=
  match evs with
  | [] => []
  | EvGenRequest _ n f _ :: evs' => (n, f) :: gen_requests evs'
  | _ :: evs' => gen_requests evs'
  end.

Lemma gen_requests_app l1 l2 : gen_requests (l1 ++ l2) = gen_requests l1 ++ gen_requests l2.
Proof. induction l1 as [|[] l1 IH]; cbn; rewrite ?IH; reflexivity. Qed.

(** A sequence of station-change calls: after the call of [n] at time [t],
    every next call names another station and comes less than [D_settle]
    after the previous call; other labels may come in between. *)
Fixpoint chain_ok (n : string) (t : N) (ls : list label) : Prop :=
  match ls with
  | [] => True
  | LStation n' _ t' :: ls' => n' <> n /\ (t' < t + D_settle)%N /\ chain_ok n' t' ls'
  | _ :: ls' => chain_ok n t ls'
  end.

(** The name, frequency and time of the last station-change call. *)
Fixpoint last_call (n f : string) (t : N) (ls : list label) : string * string * N :=
  match ls with
  | [] => (n, f, t)
  | LStation n' f' t' :: ls' => last_call n' f' t' ls'
  | _ :: ls' => last_call n f t ls'
  end.

Lemma gen_catch_no_request body : gen_requests (snd (gen_catch body)) = [].
Proof. destruct body; reflexivity. Qed.

(** Steps other than a station change and the debounce callback leave the
    debounce timer and the tuned station alone, issue no generation request,
    and advance the clock only as far as the debounce timer allows. *)
Lemma quiet_step_debounce s a s' :
  exec_action s a = Some s' ->
  match a with AStationChange _ _ | AFireDebounce => False | _ => True end ->
  debounceTimer s' = debounceTimer s /\ currentStationName s' = currentStationName s /\
  (now s <= now s')%N /\
  (now s' = now s \/ debounce_allows (now s') (debounceTimer s) = true) /\
  exists evs, log s' = evs ++ log s /\ gen_requests evs = [].
Proof.
  destruct a as [n f|b|t| | |i o|k g|k]; intros E A; try contradiction; revert E;
    cbv beta iota delta [exec_action].
  - intros H; injection H as <-.
    destruct (setMusicPlaying_fields b s) as [[_ _ _ Lg Nw] (_ & _ & _ & C & _ & D)].
    rewrite D, C, Nw, Lg; split; [|split; [|split; [|split]]]; auto; [lia|].
    exists []; auto.
  - destruct (N.leb_spec (now s) t) as [H1|H1]; [|discriminate]; cbn.
    destruct (timer_allows t (timer s)); [|discriminate]; cbn.
    destruct (debounce_allows t (debounceTimer s)) eqn:Db; [|discriminate].
    intros H; injection H as <-; cbn; split; [|split; [|split; [|split]]]; auto.
    exists []; auto.
  - destruct (timer s) as [[dl myId]|]; [|discriminate].
    destruct (N.eqb dl (now s)); [|discriminate]; intros H; injection H as <-.
    unfold countdown_fire, playPendingAnnouncement_start, add_log; destruct_st s; cbn.
    destruct (Nat.eqb sid myId), play, pend; cbn;
      (split; [|split; [|split; [|split]]]); auto; try lia;
      exists [EvCountdownFire myId clk]; split; reflexivity.
  - destruct (nth_error (pipelines s) i) as [pl|]; [|discriminate].
    destruct (pipeline_step (stationId s) pl o) as [[st evs]|] eqn:P; [|discriminate].
    intros H; injection H as <-; cbn; split; [|split; [|split; [|split]]]; auto; [lia|].
    exists evs; split; [reflexivity|].
    unfold pipeline_step in P; destruct (pl_stage pl), o; try discriminate;
      injection P as P; change evs with (snd (st, evs)); rewrite <- P;
      apply gen_catch_no_request.
  - destruct (nth_error (triggers s) k) as [[id p]|]; [|discriminate].
    destruct (nth_error (pipelines s) p) as [pl|]; [|discriminate].
    destruct (pl_stage pl); try discriminate.
    intros H; injection H as <-.
    destruct (resume_cases id p r g (set_triggers s (remove_nth k (triggers s))))
      as [->|[(msg & ->)|(b & _ & _ & _ & _ & ->)]]; destruct_st s; cbn;
      (split; [|split; [|split; [|split]]]); auto; try lia.
    + exists []; auto.
    + exists [EvLog msg]; auto.
    + exists [EvPlay id p b clk]; auto.
  - destruct (nth_error (sources s) k) as [[src gain]|]; [|discriminate].
    intros H; injection H as <-.
    unfold source_onended, add_log; destruct_st s; cbn.
    destruct csrc as [c|]; [destruct (Nat.eqb c src)|]; cbn;
      (split; [|split; [|split; [|split]]]); auto; try lia;
      exists [EvDisconnect gain; EvDisconnect src]; auto.
Qed.

Lemma debounce_fire_debounce n f s :
  debounceTimer (debounce_fire n f s) = None /\
  currentStationName (debounce_fire n f s) = currentStationName s /\
  now (debounce_fire n f s) = now s.
Proof. unfold debounce_fire, generateAnnouncement, add_log; destruct_st s; repeat split. Qed.

(** During a sequence of calls that started in the state [s0]: the last call
    was of [nl] with [fl] at time [tl]; either its debounce timer is still
    armed and no request has been issued, or it has fired and issued the one
    request of the sequence. *)
Definition chain_inv (s0 s : St) (nl fl : string) (tl : N) (new : list Ev) : Prop :=
  currentStationName s = Some nl /\ log s = new ++ log s0 /\
  ((debounceTimer s = Some ((tl + D_settle)%N, nl, fl) /\ gen_requests new = [] /\
    (now s <= tl + D_settle)%N) \/
   (debounceTimer s = None /\ gen_requests new = [(nl, fl)] /\ (tl + D_settle <= now s)%N)).

(** A step of [chain_step] that neither calls nor fires the debounce. *)
Ltac chain_quiet E L J :=
  let D' := fresh "D'" in let C' := fresh "C'" in let Tm := fresh "Tm" in
  let evs := fresh "evs" in let L' := fresh "L'" in let G' := fresh "G'" in
  let D := fresh "D" in let G := fresh "G" in let Le := fresh "Le" in
  destruct (quiet_step_debounce _ _ _ E I) as (D' & C' & ? & Tm & evs & L' & G');
  eexists (evs ++ _); split; [congruence|]; split; [rewrite L', L, app_assoc; reflexivity|];
  rewrite gen_requests_app, G'; cbn; rewrite D';
  destruct J as [(D & G & Le)|(D & G & Le)]; [left|right]; rewrite D;
  [ split; [reflexivity|]; split; [exact G|];
    destruct Tm as [->|Tm]; [exact Le|]; rewrite D in Tm; cbn in Tm; apply N.leb_le; exact Tm
  | split; [reflexivity|]; split; [exact G|lia] ].

Lemma chain_step s0 s a s' nl fl tl new :
  exec_action s a = Some s' -> chain_inv s0 s nl fl tl new ->
  match label_of s a with
  | LStation n' f' t' => n' <> nl -> (t' < tl + D_settle)%N ->
      exists new', chain_inv s0 s' n' f' t' new'
  | _ => exists new', chain_inv s0 s' nl fl tl new'
  end.
Proof.
  intros E (C & L & J).
  destruct a as [n' f'|b|t| | |i o|k g|k]; cbn [label_of].
  - intros Ne Lt; revert E; cbv beta iota delta [exec_action]; intros H; injection H as <-.
    destruct J as [(D & G & Le)|(D & G & Le)]; [|lia].
    assert (Sm : same_station (currentStationName s) n' = false)
      by (rewrite C; cbn; apply String.eqb_neq; congruence).
    destruct (onStationChange_fields n' f' s) as [[_ _ _ Lg Nw] [_ Diff]].
    destruct (Diff Sm) as (_ & C' & _ & _ & D' & _).
    exists new; split; [exact C'|]; split; [rewrite Lg; exact L|].
    left; rewrite D', Nw; split; [reflexivity|]; split; [exact G|lia].
  - chain_quiet E L J.
  - chain_quiet E L J.
  - chain_quiet E L J.
  - revert E; cbv beta iota delta [exec_action].
    destruct J as [(D & G & Le)|(D & G & Le)]; rewrite D; [|discriminate].
    destruct (N.eqb_spec (tl + D_settle) (now s)) as [Eq|]; [|discriminate].
    intros H; injection H as <-.
    destruct (debounce_fire_fields nl fl s) as (_ & _ & _ & Lg).
    destruct (debounce_fire_debounce nl fl s) as (D' & C' & Nw).
    exists ([EvGenRequest (stationId s) nl fl (now s)] ++ new).
    split; [congruence|]; split; [rewrite Lg, L, app_assoc; reflexivity|].
    right; split; [exact D'|]; split; [rewrite gen_requests_app, G; reflexivity|lia].
  - chain_quiet E L J.
  - chain_quiet E L J.
  - chain_quiet E L J.
Qed.

Lemma run_cons_inv s l ls s' :
  run s (l :: ls) s' -> exists a s1, exec_action s a = Some s1 /\ label_of s a = l /\ run s1 ls s'.
Proof. intros R; inversion R; subst; eauto. Qed.

Lemma chain_run s0 s ls s' :
  run s ls s' -> forall nl fl tl new, chain_ok nl tl ls -> chain_inv s0 s nl fl tl new ->
  exists new', chain_inv s0 s' (fst (fst (last_call nl fl tl ls)))
                          (snd (fst (last_call nl fl tl ls))) (snd (last_call nl fl tl ls)) new'.
Proof.
  induction 1 as [s|s a s1 ls s2 E R IH]; intros nl fl tl new Ch J; [exists new; exact J|].
  pose proof (chain_step s0 s a s1 nl fl tl new E J) as St.
  destruct (label_of s a) as [n' f' t'|q|]; cbn in Ch |- *.
  - destruct Ch as (Ne & Lt & Ch); destruct (St Ne Lt) as (new' & J'); exact (IH _ _ _ _ Ch J').
  - destruct St as (new' & J'); exact (IH _ _ _ _ Ch J').
  - destruct St as (new' & J'); exact (IH _ _ _ _ Ch J').
Qed.

(** ** Replaying an announcement *)

(** Pause and resume the music, let the countdown run out and fire, and let
    its trigger resume. *)
Definition replay_acts (s : St) : list Action :=
  [ASetMusicPlaying false; ASetMusicPlaying true; ATick (now s + D_announce);
   AFireCountdown; AResume (List.length (triggers s)) GraphOk].

Lemma replay_once s e p b t :
  reachable s -> In (EvPlay e p b t) (log s) -> stationId s = e ->
  exists s', exec_actions s (replay_acts s) = Some s' /\
    log s' = [EvPlay e p b (now s + D_announce); EvCountdownFire e (now s + D_announce)] ++ log s /\
    stationId s' = e.
Proof.
  intros Hr Hin Sid; pose proof (Inv_reachable _ Hr) as I.
  destruct (inv_plays _ I e p b t Hin) as (pl & N & Id & C).
  destruct (C (eq_sym Sid)) as (Pe & Stg & Tr).
  assert (Db : debounceTimer s = None).
  { destruct (debounceTimer s) as [[[dl n] f]|] eqn:D; [|reflexivity].
    destruct (inv_debounce _ I _ _ _ D) as [_ Pn]; congruence. }
  destruct_st s; cbn in *; subst.
  destruct csn as [c|]; [|discriminate]; cbn in Tr.
  assert (Le : N.leb clk (clk + D_announce) = true) by (apply N.leb_le; lia).
  unfold replay_acts, setMusicPlaying, startTimer, stopTimer, countdown_fire,
    playPendingAnnouncement_start, playPendingAnnouncement_resume, playPending_body,
    start_playback, add_log.
  destruct tm; do 6 (cbn; rewrite ?Tr, ?Le, ?N.leb_refl, ?N.eqb_refl, ?nth_error_snoc_last,
                        ?N, ?Stg, ?Nat.eqb_refl).
  all: eexists; split; [reflexivity | split; reflexivity].
Qed.

(** How many playback events of the buffer [b] of promise [p] in epoch [e]
    some events hold. *)
Fixpoint count_plays (e p : nat) (b : AudioBuffer) (evs : list Ev) : nat :=
  match evs with
  | [] => 0
  | EvPlay e' p' b' _ :: evs' =>
      (if Nat.eqb e' e && Nat.eqb p' p && Nat.eqb b' b then 1 else 0) + count_plays e p b evs'
  | _ :: evs' => count_plays e p b evs'
  end.

Lemma count_plays_app e p b l1 l2 :
  count_plays e p b (l1 ++ l2) = count_plays e p b l1 + count_plays e p b l2.
Proof. induction l1 as [|[] l1 IH]; cbn; rewrite ?IH; lia. Qed.

(** The labels of a schedule without station changes are playback-state
    calls and internal steps. *)
Definition no_station_change (l : label) : Prop :=
  match l with LStation _ _ _ => False | _ => True end.

Lemma labels_of_no_station s acts :
  Forall (fun a => match a with AStationChange _ _ => False | _ => True end) acts ->
  Forall no_station_change (labels_of s acts).
Proof.
  revert s; induction acts as [|a acts IH]; intros s F; cbn; [constructor|].
  inversion F as [|a0 acts0 Ha Fs]; subst.
  destruct (exec_action s a) as [s1|]; [|constructor].
  constructor; [destruct a; cbn; tauto | apply IH; exact Fs].
Qed.

Lemma replay_many s e p b t :
  reachable s -> In (EvPlay e p b t) (log s) -> stationId s = e ->
  forall k : nat, exists (ls : list label) (s' : St), run s ls s' /\ Forall no_station_change ls /\
    exists new, log s' = new ++ log s /\ k <= count_plays e p b new.
Proof.
  intros Hr Hin Sid k; revert s t Hr Hin Sid; induction k as [|k IH]; intros s t Hr Hin Sid.
  - exists [], s; split; [constructor|]; split; [constructor|]; exists []; split; [reflexivity|lia].
  - destruct (replay_once s e p b t Hr Hin Sid) as (s1 & E & L1 & Sid1).
    pose proof (exec_actions_run _ _ _ E) as R1.
    assert (Hin1 : In (EvPlay e p b (now s + D_announce)) (log s1)) by (rewrite L1; left; reflexivity).
    destruct (IH s1 _ (run_reachable _ _ _ Hr R1) Hin1 Sid1) as (ls & s2 & R2 & F2 & new & L2 & Cnt).
    exists (labels_of s (replay_acts s) ++ ls), s2; split; [eapply run_app; eauto|].
    split.
    + apply Forall_app; split; [|exact F2].
      apply labels_of_no_station; repeat constructor.
    + exists (new ++ [EvPlay e p b (now s + D_announce); EvCountdownFire e (now s + D_announce)]).
      split; [rewrite L2, L1, app_assoc; reflexivity|].
      rewrite count_plays_app; cbn; rewrite !Nat.eqb_refl; cbn; lia.
Qed.

(** Only a station change clears the pending promise; the debounce callback
    sets it, and every other step leaves it alone. *)
Lemma step_pending s a s' :
  exec_action s a = Some s' ->
  match a with
  | AStationChange _ _ => True
  | AFireDebounce => pendingBufferPromise s' <> None
  | _ => pendingBufferPromise s' = pendingBufferPromise s
  end.
Proof.
  destruct a as [n f|b|t| | |i o|k g|k]; cbv beta iota delta [exec_action]; [intros; exact I|..].
  - intros H; injection H as <-; apply (setMusicPlaying_fields b s).
  - destruct (_ && _ && _); [|discriminate]; intros H; injection H as <-; reflexivity.
  - destruct (timer s) as [[dl myId]|]; [|discriminate].
    destruct (N.eqb dl (now s)); [|discriminate]; intros H; injection H as <-.
    unfold countdown_fire, playPendingAnnouncement_start, add_log; destruct_st s; cbn.
    destruct (Nat.eqb sid myId), play, pend; reflexivity.
  - destruct (debounceTimer s) as [[[dl n] f]|]; [|discriminate].
    destruct (N.eqb dl (now s)); [|discriminate]; intros H; injection H as <-.
    unfold debounce_fire, generateAnnouncement, add_log; destruct_st s; discriminate.
  - destruct (nth_error (pipelines s) i) as [pl|]; [|discriminate].
    destruct (pipeline_step (stationId s) pl o) as [[st evs]|]; [|discriminate].
    intros H; injection H as <-; reflexivity.
  - destruct (nth_error (triggers s) k) as [[id p]|]; [|discriminate].
    destruct (nth_error (pipelines s) p) as [pl|]; [|discriminate].
    destruct (pl_stage pl); try discriminate.
    intros H; injection H as <-.
    destruct (resume_cases id p r g (set_triggers s (remove_nth k (triggers s))))
      as [->|[(msg & ->)|(b & _ & _ & _ & _ & ->)]]; destruct_st s; reflexivity.
  - destruct (nth_error (sources s) k) as [[src gain]|]; [|discriminate].
    intros H; injection H as <-.
    unfold source_onended, add_log; destruct_st s; cbn.
    destruct csrc as [c|]; [destruct (Nat.eqb c src)|]; reflexivity.
Qed.

(** * The callers of the announcer

    A shallow embedding of the code of [src/unnamed/part_000] ([index.tsx]:
    [main], its ['prompts-changed'] and ['playback-state-changed'] handlers,
    [buildInitialPrompts] and [DEFAULT_PROMPTS]) and of the part of
    [src/unnamed/part_001] ([PromptDjMidi]: its constructor, [currentPrompt],
    [setStation], the frequency shown by [render], and the index clamp of
    [handlePointerMove]) through which the tuning dial reaches the announcer.

    The dial's rotation angle, the pointer geometry and the background image
    are floating-point display state and are not modelled: a dial move is
    given by the [rawIndex] that [handlePointerMove] computes from the
    angle. *)

(** ** JavaScript string and number helpers *)

(** A decimal digit character. *)
Definition is_digit (c : ascii) : bool :=
  let n := nat_of_ascii c in (48 <=? n) && (n <=? 57).

Definition digit_char (d : nat) : ascii := ascii_of_nat (48 + d).

(** The decimal digits of [n] in front of [acc]; [fuel] bounds the number of
    digits. *)
Fixpoint dec_digits (fuel n : nat) (acc : list ascii) : list ascii :=
  match fuel with
  | O => acc
  | S fuel' =>
      let acc' := digit_char (n mod 10) :: acc in
      if n <? 10 then acc' else dec_digits fuel' (n / 10) acc'
  end.

(** [String(n)] (and [`${n}`]) of a non-negative integer [n] below [10^21];
    from [10^21] on JavaScript writes the number in exponent notation, which
    the model does not cover. *)
Definition number_to_string (n : nat) : string :=
  string_of_list_ascii (dec_digits (S n) n []).

(** The longest prefix of decimal digits. *)
Fixpoint take_digits (l : list ascii) : list ascii :=
  match l with
  | c :: l' => if is_digit c then c :: take_digits l' else []
  | [] => []
  end.

Definition digits_value (ds : list ascii) : Z :=
  fold_left (fun acc c => (acc * 10 + Z.of_nat (nat_of_ascii c - 48))%Z) ds 0%Z.

(** [parseInt(s, 10)] on an ASCII string: leading white space is skipped,
    then an optional sign, then the longest run of decimal digits; [None] is
    [NaN] (no digit).  The result is the exact integer value of the digits;
    the double JavaScript returns equals it while its magnitude is at most
    [2^53] and is rounded beyond. *)
Definition parseInt (s : string) : option Z :=
  let l := drop_ws (list_ascii_of_string s) in
  let '(sign, l) :=
    match l with
    | c :: l' => if Ascii.eqb c "-"%char then ((-1)%Z, l')
                 else if Ascii.eqb c "+"%char then (1%Z, l') else (1%Z, l)
    | [] => (1%Z, l)
    end in
  match take_digits l with
  | [] => None
  | ds => Some (sign * digits_value ds)%Z
  end.

(** [s.split(sep)] for a one-character separator. *)
Fixpoint split_aux (sep : ascii) (l cur : list ascii) : list (list ascii) :=
  match l with
  | [] => [rev cur]
  | c :: l' => if Ascii.eqb c sep then rev cur :: split_aux sep l' []
               else split_aux sep l' (c :: cur)
  end.

Definition js_split (sep : ascii) (s : string) : list string :=
  map string_of_list_ascii (split_aux sep (list_ascii_of_string s) []).

(** [x.toFixed(1)] of the number [x = k / 10], for an integer [k] with
    [|x| < 1e21]: a sign, the integer part, a point and one digit. *)
Definition toFixed1_tenths (k : Z) : string :=
  ((if (k <? 0)%Z then "-" else "")
   ++ number_to_string (Z.to_nat (Z.abs k / 10)) ++ "."
   ++ number_to_string (Z.to_nat (Z.abs k mod 10)))%string.

(** [(88.0 + index * 1.5).toFixed(1)] for an integer [index].  The double
    [88.0 + index * 1.5] is then a multiple of 0.5 and is computed exactly
    while [|index| < 2^50], its value in tenths being [880 + 15 * index];
    beyond that range the model gives no answer ([None]). *)
Definition station_frequency (index : Z) : option string :=
  if (Z.abs index <? 2 ^ 50)%Z then Some (toFixed1_tenths (880 + 15 * index))
  else None.

(** ** Prompts and their map *)

Record Prompt : Type := mkPrompt {
  promptId : string;
  text : string;
  weight : Z;
  cc : nat;
  color : string
}.

Definition set_weight (p : Prompt) (w : Z) : Prompt :=
  mkPrompt (promptId p) (text p) w (cc p) (color p).

(** A [Map<string, Prompt>], in insertion order. *)
Definition PromptMap := list (string * Prompt).

(** [m.get(k)] *)
Fixpoint map_get (k : string) (m : PromptMap) : option Prompt :=
  match m with
  | [] => None
  | (k', v) :: m' => if String.eqb k k' then Some v else map_get k m'
  end.

(** [m.set(k, v)]: an existing key keeps its position, a new one is added
    at the end. *)
Fixpoint map_set (k : string) (v : Prompt) (m : PromptMap) : PromptMap :=
  match m with
  | [] => [(k, v)]
  | (k', v') :: m' => if String.eqb k k' then (k', v) :: m' else (k', v') :: map_set k v m'
  end.

(** [const DEFAULT_PROMPTS = [{ color, text }, ...]] *)
Definition DEFAULT_PROMPTS : list (string * string) :=
  [("#9900ff", "Bossa Nova"); ("#5200ff", "Chillwave");
   ("#ff25f6", "Drum and Bass"); ("#2af6de", "Post Punk");
   ("#ffdd28", "Shoegaze"); ("#2af6de", "Funk");
   ("#9900ff", "Chiptune"); ("#3dffab", "Lush Strings");
   ("#d8ff3e", "Sparkling Arpeggios"); ("#d9b2ff", "Staccato Rhythms");
   ("#3dffab", "Punchy Kick"); ("#ffdd28", "Dubstep");
   ("#ff25f6", "K Pop"); ("#d8ff3e", "Neo Soul");
   ("#5200ff", "Trip Hop"); ("#d9b2ff", "Thrash")]%string.

(** The loop of [buildInitialPrompts] from index [i] on. *)
Fixpoint build_from (i : nat) (ds : list (string * string)) (prompts : PromptMap)
    : PromptMap :=
  match ds with
  | [] => prompts
  | (color, text) :: ds' =>
      let promptId := ("prompt-" ++ number_to_string i)%string in
      let isActive := Nat.eqb i 0 in
      build_from (S i) ds'
        (map_set promptId (mkPrompt promptId text (if isActive then 1 else 0)%Z i color) prompts)
  end.

(** [buildInitialPrompts()] *)
Definition buildInitialPrompts : PromptMap := build_from 0 DEFAULT_PROMPTS [].

(** ** The ['prompts-changed'] handler of [main] *)

(** The call [radioAnnouncer.onStationChange(prompt.text, frequency)] made
    for one prompt of positive weight, if any. *)
Definition announce_prompt (prompt : Prompt) : option (option (string * string)) :=
  match js_split "-"%char (promptId prompt) with
  | [_; part1] =>
      match parseInt part1 with
      | Some index =>
          match station_frequency index with
          | Some frequency => Some (Some (text prompt, frequency))
          | None => None
          end
      | None => Some None                       (* isNaN(index) *)
      end
  | _ => Some None                              (* parts.length !== 2 *)
  end.

(** [for (const [id, prompt] of prompts) { if (prompt.weight > 0) { ...; break; } }]:
    the station change passed to the announcer ([Some None]: none); [None]
    when the frequency falls outside the modelled range. *)
Fixpoint prompts_changed (prompts : PromptMap) : option (option (string * string)) :=
  match prompts with
  | [] => Some None
  | (_, prompt) :: rest =>
      if (0 <? weight prompt)%Z then announce_prompt prompt else prompts_changed rest
  end.

(** The ['playback-state-changed'] handler:
    [radioAnnouncer.setMusicPlaying(playbackState === 'playing')]. *)
Definition playback_state_changed (playbackState : string) : Action :=
  ASetMusicPlaying (String.eqb playbackState "playing"%string).

(** ** The tuning dial ([PromptDjMidi]) *)

Record Dj : Type := mkDj {
  prompts : PromptMap;
  promptKeys : list string;
  activeIndex : nat
}.

(** [promptKeys.indexOf(k)]; [None] is [-1]. *)
Fixpoint index_of (k : string) (keys : list string) : option nat :=
  match keys with
  | [] => None
  | k' :: keys' => if String.eqb k k' then Some 0 else option_map S (index_of k keys')
  end.

(** The constructor: [activeIndex] starts at 0 and moves to the first key
    whose prompt has weight [1] (if that key is truthy). *)
Definition PromptDjMidi_new (initialPrompts : PromptMap) : Dj :=
  let promptKeys := map fst initialPrompts in
  let activeKey :=
    find (fun k => match map_get k initialPrompts with
                   | Some p => Z.eqb (weight p) 1
                   | None => false
                   end) promptKeys in
  match activeKey with
  | Some k =>
      if truthy_str (Some k) then
        match index_of k promptKeys with
        | Some i => mkDj initialPrompts promptKeys i
        | None => mkDj initialPrompts promptKeys 0   (* unreachable: k is a key *)
        end
      else mkDj initialPrompts promptKeys 0
  | None => mkDj initialPrompts promptKeys 0
  end.

(** [get currentPrompt()]: [this.prompts.get(this.promptKeys[this.activeIndex])!];
    [None] is [undefined]. *)
Definition currentPrompt (d : Dj) : option Prompt :=
  match nth_error (promptKeys d) (activeIndex d) with
  | Some k => map_get k (prompts d)
  | None => None
  end.

(** The frequency shown by [render]: [(88.0 + this.activeIndex * 1.5).toFixed(1)]. *)
Definition render_frequency (d : Dj) : option string :=
  station_frequency (Z.of_nat (activeIndex d)).

(** What [setStation] dispatches. *)
Inductive Dispatch : Type :=
| NoEvent                          (* early return *)
| PromptsChanged (detail : PromptMap)
| Thrown.                          (* [newPrompts.get(key)!.weight] on [undefined] *)

(** The [forEach] of [setStation] over the keys from position [i] on, on the
    copy [newPrompts].  [new Map(this.prompts)] copies the entries, not the
    prompt objects: [p.weight = ...] also changes them in the old map.  The
    model keeps the updated prompts in [newPrompts], the only map this code
    path reads afterwards ([this.prompts] and the dispatched [detail]). *)
Fixpoint reweight (index i : nat) (keys : list string) (newPrompts : PromptMap)
    : option PromptMap :=
  match keys with
  | [] => Some newPrompts
  | key :: keys' =>
      match map_get key newPrompts with
      | Some p =>
          reweight index (S i) keys'
            (map_set key (set_weight p (if Nat.eqb i index then 1 else 0)%Z) newPrompts)
      | None => None
      end
  end.

(** [private setStation(index)] *)
Definition setStation (index : nat) (d : Dj) : Dj * Dispatch :=
  if Nat.eqb index (activeIndex d) then (d, NoEvent) else
  let d := mkDj (prompts d) (promptKeys d) index in
  match reweight index 0 (promptKeys d) (prompts d) with
  | Some newPrompts => (mkDj newPrompts (promptKeys d) index, PromptsChanged newPrompts)
  | None => (d, Thrown)
  end.

(** [Math.max(0, Math.min(count - 1, rawIndex))] of [handlePointerMove], for
    the non-negative [rawIndex] it computes. *)
Definition clamp_index (count rawIndex : nat) : nat := Nat.min (count - 1) rawIndex.

(** ** The application *)

Record App : Type := mkApp { dj : Dj; announcer : St }.

(** [main()] up to its first event: the dial is built on
    [buildInitialPrompts()], then [radioAnnouncer.onStationChange(DEFAULT_PROMPTS[0].text, '88.0')]. *)
Definition main_init : App :=
  let pdjMidi := PromptDjMidi_new buildInitialPrompts in
  let s := match DEFAULT_PROMPTS with
           | (_, t) :: _ => onStationChange t "88.0"%string init
           | [] => init          (* unreachable: DEFAULT_PROMPTS is not empty *)
           end in
  mkApp pdjMidi s.

(** A dial move in [handlePointerMove]: [setStation(index)], which
    synchronously runs the ['prompts-changed'] handler on the dispatched map. *)
Definition dial (rawIndex : nat) (a : App) : option App :=
  let index := clamp_index (List.length (promptKeys (dj a))) rawIndex in
  let '(d', ev) := setStation index (dj a) in
  match ev with
  | PromptsChanged m =>
      match prompts_changed m with
      | Some (Some (n, f)) => Some (mkApp d' (onStationChange n f (announcer a)))
      | Some None => Some (mkApp d' (announcer a))
      | None => None
      end
  | _ => Some (mkApp d' (announcer a))
  end.

Definition is_station_change (act : Action) : bool :=
  match act with AStationChange _ _ => true | _ => false end.

(** The events of the running application: dial moves, playback-state
    changes of the music helper, and the announcer's own timers and promise
    continuations (its only callers of [onStationChange] being [main] and the
    dial). *)
Inductive app_step : App -> App -> Prop :=
| app_dial a rawIndex a' : dial rawIndex a = Some a' -> app_step a a'
| app_playback a playbackState s' :
    exec_action (announcer a) (playback_state_changed playbackState) = Some s' ->
    app_step a (mkApp (dj a) s')
| app_internal a act s' :
    is_station_change act = false -> exec_action (announcer a) act = Some s' ->
    app_step a (mkApp (dj a) s').

Inductive app_reachable : App -> Prop :=
| app_reach_init : app_reachable main_init
| app_reach_step a a' : app_reachable a -> app_step a a' -> app_reachable a'.

(** ** Further facts about the announcer's steps *)

(** Case analysis on every [match] of the hypotheses. *)
Ltac destruct_hyp_matches :=
  repeat match goal with
         | H : context [match ?x with _ => _ end] |- _ => destruct x
         end.

(** Unfolds one step of the announcer on a destructed state. *)
Ltac unfold_step H :=
  unfold setMusicPlaying, startTimer, stopTimer, countdown_fire,
    playPendingAnnouncement_start, debounce_fire, generateAnnouncement,
    playPendingAnnouncement_resume, playPending_body, start_playback,
    source_onended, add_log, exc_bind, await_result in H;
  cbn in H; destruct_hyp_matches; cbn in H;
  try discriminate H; injection H as <-; cbn.

(** Only a station change writes the tuned name and frequency; every other
    step keeps them and either keeps the settle timer or clears it. *)
Lemma step_tuning s a s' :
  exec_action s a = Some s' -> is_station_change a = false ->
  currentStationName s' = currentStationName s /\
  currentFrequency s' = currentFrequency s /\
  (debounceTimer s' = debounceTimer s \/ debounceTimer s' = None).
Proof.
  intros H Hs; destruct a; cbn in Hs; try discriminate Hs; clear Hs;
    cbv beta iota delta [exec_action] in H.
  6: { destruct (nth_error (triggers s) k) as [[id p]|]; [|discriminate].
       destruct (nth_error (pipelines s) p) as [pl|]; [|discriminate].
       destruct (pl_stage pl); try discriminate; injection H as <-.
       destruct (resume_cases id p r g (set_triggers s (remove_nth k (triggers s))))
         as [->|[(msg & ->)|(b & _ & _ & _ & _ & ->)]]; destruct_st s; cbn; auto. }
  all: destruct_st s; unfold_step H; auto.
Qed.

(** The frequency a station change records. *)
Lemma onStationChange_frequency n f s :
  same_station (currentStationName s) n = false ->
  currentFrequency (onStationChange n f s) = Some f.
Proof.
  intros E; unfold onStationChange, startTimer, stopTimer; rewrite E.
  destruct_st s; cbn; destruct tm, db, play; cbn; try destruct (String.eqb n ""%string);
    reflexivity.
Qed.

(** Every step appends to the log; a generation request it appends carries
    the name and frequency held by the settle timer before the step. *)
Lemma step_gen_requests s a s' :
  exec_action s a = Some s' ->
  exists evs, log s' = evs ++ log s /\
    forall e n f t, In (EvGenRequest e n f t) evs ->
      exists dl, debounceTimer s = Some (dl, n, f).
Proof.
  intros H; destruct a; cbv beta iota delta [exec_action] in H.
  - injection H as <-; exists []; split; [apply (onStationChange_fields _ _ s) | intros ? ? ? ? []].
  - injection H as <-; exists []; split; [apply (setMusicPlaying_fields _ s) | intros ? ? ? ? []].
  - destruct (_ && _ && _); [|discriminate]; injection H as <-; exists [];
      split; [reflexivity | intros ? ? ? ? []].
  - destruct (timer s) as [[dl myId]|]; [|discriminate].
    destruct (N.eqb dl (now s)); [|discriminate]; injection H as <-.
    exists [EvCountdownFire myId (now s)]; split; [exact (proj2 (proj2 (proj2 (countdown_fire_fields myId s))))|].
    intros ? ? ? ? [E|[]]; discriminate.
  - destruct (debounceTimer s) as [[[dl n] f]|] eqn:D; [|discriminate].
    destruct (N.eqb dl (now s)); [|discriminate]; injection H as <-.
    exists [EvGenRequest (stationId s) n f (now s)]; split; [exact (proj2 (proj2 (proj2 (debounce_fire_fields n f s))))|].
    intros ? ? ? ? [E|[]]; injection E as E1 E2 E3 E4; subst; eauto.
  - destruct (nth_error (pipelines s) i) as [pl|]; [|discriminate].
    destruct (pipeline_step (stationId s) pl o) as [[st evs]|] eqn:P; [|discriminate].
    injection H as <-; exists evs; split; [reflexivity|].
    unfold pipeline_step in P; destruct (pl_stage pl), o; try discriminate;
      injection P as P;
      match type of P with gen_catch ?b = _ => destruct b end;
      injection P as _ <-; cbn; intros e0 n0 f0 t0 E;
      repeat (destruct E as [E|E]; [discriminate|]); contradiction.
  - destruct (nth_error (triggers s) k) as [[id p]|]; [|discriminate].
    destruct (nth_error (pipelines s) p) as [pl|]; [|discriminate].
    destruct (pl_stage pl); try discriminate; injection H as <-.
    destruct (resume_cases id p r g (set_triggers s (remove_nth k (triggers s))))
      as [->|[(msg & ->)|(b & _ & _ & _ & _ & ->)]].
    + exists []; split; [reflexivity | intros ? ? ? ? []].
    + exists [EvLog msg]; split; [reflexivity | intros ? ? ? ? [E|[]]; discriminate].
    + exists [EvPlay id p b (now s)]; split; [reflexivity | intros ? ? ? ? [E|[]]; discriminate].
  - destruct (nth_error (sources s) k) as [[src gain]|]; [|discriminate].
    injection H as <-.
    exists [EvDisconnect gain; EvDisconnect src]; split.
    + exact (proj2 (proj2 (proj2 (source_onended_fields src gain (set_sources s (remove_nth k (sources s))))))).

    + intros ? ? ? ? [E|[E|[]]]; discriminate.
Qed.

(** A step other than resuming a pipeline changes the list of pipelines at
    most by starting new ones at its end. *)
Lemma step_pipelines_extend s a s' :
  exec_action s a = Some s' -> (forall i o, a <> APipeline i o) ->
  exists ext, pipelines s' = pipelines s ++ ext.
Proof.
  intros H Ha; destruct a; cbv beta iota delta [exec_action] in H.
  - injection H as <-; exists []; rewrite app_nil_r; apply (onStationChange_fields _ _ s).
  - injection H as <-; exists []; rewrite app_nil_r; apply (setMusicPlaying_fields _ s).
  - destruct (_ && _ && _); [|discriminate]; injection H as <-; exists [];
      rewrite app_nil_r; reflexivity.
  - destruct (timer s) as [[dl myId]|]; [|discriminate].
    destruct (N.eqb dl (now s)); [|discriminate]; injection H as <-.
    exists []; rewrite app_nil_r; apply (countdown_fire_fields myId s).
  - destruct (debounceTimer s) as [[[dl n] f]|]; [|discriminate].
    destruct (N.eqb dl (now s)); [|discriminate]; injection H as <-.
    eexists; apply (debounce_fire_fields n f s).
  - exfalso; eapply Ha; reflexivity.
  - destruct (nth_error (triggers s) k) as [[id p]|]; [|discriminate].
    destruct (nth_error (pipelines s) p) as [pl|]; [|discriminate].
    destruct (pl_stage pl); try discriminate; injection H as <-.
    exists []; rewrite app_nil_r.
    destruct (resume_cases id p r g (set_triggers s (remove_nth k (triggers s))))
      as [->|[(msg & ->)|(b & _ & _ & _ & _ & ->)]]; destruct_st s; reflexivity.
  - destruct (nth_error (sources s) k) as [[src gain]|]; [|discriminate].
    injection H as <-; exists []; rewrite app_nil_r.
    destruct (source_onended_fields src gain (set_sources s (remove_nth k (sources s))))
      as (_ & _ & -> & _); destruct_st s; reflexivity.
Qed.

(** A pipeline that has settled is never touched again by a step. *)
Lemma step_settled s a s' p pl r :
  exec_action s a = Some s' -> nth_error (pipelines s) p = Some pl ->
  pl_stage pl = SDone r -> nth_error (pipelines s') p = Some pl.
Proof.
  intros H Np Stg.
  destruct a as [n f|b|t| | |i o|k g|k] eqn:A;
    try (destruct (step_pipelines_extend s a s') as (ext & ->);
         [subst a; exact H | subst a; discriminate | ];
         rewrite nth_error_app1; [exact Np | apply nth_error_Some; congruence]).
  cbv beta iota delta [exec_action] in H.
  destruct (nth_error (pipelines s) i) as [pl0|] eqn:Ni; [|discriminate].
  destruct (pipeline_step (stationId s) pl0 o) as [[st evs]|] eqn:P; [|discriminate].
  injection H as <-; cbn; rewrite nth_error_update_nth.
  destruct (Nat.eqb_spec i p) as [<-|_]; [|exact Np].
  rewrite Ni in Np; injection Np as ->.
  unfold pipeline_step in P; rewrite Stg in P; destruct o; discriminate.
Qed.

Lemma run_settled s ls s' p pl r :
  run s ls s' -> nth_error (pipelines s) p = Some pl ->
  pl_stage pl = SDone r -> nth_error (pipelines s') p = Some pl.
Proof.
  induction 1 as [s|s a s1 ls s2 E R IH]; intros Np Stg; auto.
  apply IH; [eapply step_settled; eauto | exact Stg].
Qed.

(** The settle timer always carries the tuned name and frequency. *)
Definition settle_matches (s : St) : Prop :=
  forall dl n f, debounceTimer s = Some (dl, n, f) ->
    currentStationName s = Some n /\ currentFrequency s = Some f.

Lemma step_settle_matches s a s' :
  settle_matches s -> exec_action s a = Some s' -> settle_matches s'.
Proof.
  intros I H dl n f D.
  destruct (is_station_change a) eqn:Sc.
  - destruct a; try discriminate Sc; cbv beta iota delta [exec_action] in H.
    injection H as <-.
    destruct (onStationChange_fields stationName frequency s) as [_ [Same Diff]].
    destruct (same_station (currentStationName s) stationName) eqn:E.
    + rewrite (Same eq_refl) in *; eapply I; exact D.
    + destruct (Diff eq_refl) as (_ & Nm & _ & _ & Db & _).
      rewrite Db in D; injection D as _ <- <-.
      split; [exact Nm | apply onStationChange_frequency; exact E].
  - destruct (step_tuning s a s' H Sc) as (Nm & Fq & [Db|Db]); rewrite Db in D;
      [rewrite Nm, Fq; eapply I; eauto | discriminate].
Qed.

Lemma run_settle_matches s ls s' :
  settle_matches s -> run s ls s' -> settle_matches s'.
Proof.
  intros I R; induction R as [s|s a s1 ls s2 E R IH]; auto.
  apply IH; eapply step_settle_matches; eauto.
Qed.

(** [currentSource] always names a source that has not ended. *)
Definition source_tracked (s : St) : Prop :=
  forall c, currentSource s = Some c -> exists g, In (c, g) (sources s).

Lemma in_remove_nth_other {A} (l : list A) k x y :
  nth_error l k = Some y -> In x l -> x <> y -> In x (remove_nth k l).
Proof.
  revert k; induction l as [|z l IH]; intros [|k]; cbn; try contradiction.
  - intros E [->|H] Ne; [injection E as ->; contradiction | exact H].
  - intros E [->|H] Ne; [left; reflexivity | right; eauto].
Qed.

Lemma step_source_tracked s a s' :
  source_tracked s -> exec_action s a = Some s' -> source_tracked s'.
Proof.
  intros I H; destruct a; cbv beta iota delta [exec_action] in H.
  7: { destruct (nth_error (triggers s) k) as [[id p]|]; [|discriminate].
       destruct (nth_error (pipelines s) p) as [pl|]; [|discriminate].
       destruct (pl_stage pl); try discriminate; injection H as <-.
       destruct (resume_cases id p r g (set_triggers s (remove_nth k (triggers s))))
         as [->|[(msg & ->)|(b & _ & _ & _ & _ & ->)]]; destruct_st s; cbn; auto.
       intros c Hc; injection Hc as <-; eexists; left; reflexivity. }
  7: { destruct (nth_error (sources s) k) as [[src gain]|] eqn:K; [|discriminate].
       injection H as <-; unfold source_onended, add_log.
       destruct_st s; cbn in *; intros c.
       destruct csrc as [c0|]; [|cbn; discriminate].
       destruct (Nat.eqb_spec c0 src) as [->|Ne]; cbn; [discriminate|].
       intros Hc; injection Hc as <-.
       destruct (I c0 eq_refl) as (g & Hg); exists g.
       eapply in_remove_nth_other; [exact K | exact Hg | congruence]. }
  all: try (destruct_st s; unfold onStationChange, same_station in H; unfold_step H;
            exact I).
Qed.

Lemma run_source_tracked s ls s' :
  source_tracked s -> run s ls s' -> source_tracked s'.
Proof.
  intros I R; induction R as [s|s a s1 ls s2 E R IH]; auto.
  apply IH; eapply step_source_tracked; eauto.
Qed.

(** ** Decimal printing and [parseInt] *)

Lemma digit_char_digit d : d < 10 -> is_digit (digit_char d) = true.
Proof.
  intros H; unfold is_digit, digit_char.
  rewrite nat_ascii_embedding by lia; apply andb_true_intro; split; apply Nat.leb_le; lia.
Qed.

Lemma digit_char_value d : d < 10 -> nat_of_ascii (digit_char d) - 48 = d.
Proof. intros H; unfold digit_char; rewrite nat_ascii_embedding by lia; lia. Qed.

Lemma digits_value_snoc ds c :
  digits_value (ds ++ [c]) = (digits_value ds * 10 + Z.of_nat (nat_of_ascii c - 48))%Z.
Proof. unfold digits_value; rewrite fold_left_app; reflexivity. Qed.

(** The digits printed for [n] form a non-empty run of decimal digits whose
    value is [n]. *)
Lemma dec_digits_spec fuel n acc :
  n < fuel ->
  exists ds, dec_digits fuel n acc = ds ++ acc /\ ds <> [] /\
    forallb is_digit ds = true /\ digits_value ds = Z.of_nat n.
Proof.
  revert n acc; induction fuel as [|fuel IH]; intros n acc Hn; [lia|].
  cbn [dec_digits].
  assert (Hm : n mod 10 < 10) by (apply Nat.mod_upper_bound; lia).
  destruct (Nat.ltb_spec n 10) as [Lt|Ge].
  - exists [digit_char (n mod 10)]; split; [reflexivity|]; split; [discriminate|].
    split; [cbn [forallb]; rewrite digit_char_digit; auto|].
    unfold digits_value; cbn [fold_left]; rewrite digit_char_value by exact Hm.
    rewrite Nat.mod_small by exact Lt; lia.
  - destruct (IH (n / 10) (digit_char (n mod 10) :: acc)) as (ds & E & Ne & D & V).
    { apply Nat.lt_le_trans with n; [apply Nat.div_lt; lia | lia]. }
    exists (ds ++ [digit_char (n mod 10)]); split; [rewrite E, <- app_assoc; reflexivity|].
    split; [destruct ds; discriminate|]; split.
    + rewrite forallb_app, D; cbn [forallb]; rewrite digit_char_digit by exact Hm; reflexivity.
    + rewrite digits_value_snoc, V, digit_char_value by exact Hm.
      rewrite (Nat.div_mod_eq n 10) at 3; lia.
Qed.

Lemma take_digits_all ds : forallb is_digit ds = true -> take_digits ds = ds.
Proof.
  induction ds as [|c ds IH]; cbn; auto.
  intros H; apply andb_prop in H as [-> H]; rewrite IH; auto.
Qed.

Lemma digit_not_ws c : is_digit c = true -> is_ws c = false.
Proof.
  unfold is_digit, is_ws; intros H; apply andb_prop in H as [H1 H2].
  apply Nat.leb_le in H1; apply Nat.leb_le in H2.
  repeat (apply orb_false_intro); apply Nat.eqb_neq; lia.
Qed.

(** [parseInt(String(n), 10) === n]. *)
Lemma parseInt_number_to_string n : parseInt (number_to_string n) = Some (Z.of_nat n).
Proof.
  destruct (dec_digits_spec (S n) n [] (Nat.lt_succ_diag_r n)) as (ds & E & Ne & D & V).
  unfold parseInt, number_to_string; rewrite E, app_nil_r, list_ascii_of_string_of_list_ascii.
  destruct ds as [|c ds']; [contradiction|].
  cbn in D; apply andb_prop in D as [Dc D'].
  cbn [drop_ws]; rewrite (digit_not_ws c Dc).
  assert (Hs : Ascii.eqb c "-"%char = false /\ Ascii.eqb c "+"%char = false).
  { unfold is_digit in Dc; apply andb_prop in Dc as [D1 D2].
    apply Nat.leb_le in D1; apply Nat.leb_le in D2.
    split; apply Ascii.eqb_neq; intros ->; cbn in D1; lia. }
  destruct Hs as [-> ->].
  rewrite (take_digits_all (c :: ds')) by (cbn; rewrite Dc; exact D').
  rewrite V, Z.mul_1_l; reflexivity.
Qed.

Lemma split_aux_no_sep sep l cur :
  forallb (fun c => negb (Ascii.eqb c sep)) l = true ->
  split_aux sep l cur = [rev cur ++ l].
Proof.
  revert cur; induction l as [|c l IH]; intros cur H; cbn in *.
  - rewrite app_nil_r; reflexivity.
  - apply andb_prop in H as [Hc H]; destruct (Ascii.eqb c sep); [discriminate|].
    rewrite IH by exact H; cbn; rewrite <- app_assoc; reflexivity.
Qed.

(** [("prompt-" + String(n)).split('-')] is [["prompt", String(n)]]. *)
Lemma js_split_prompt_id n :
  js_split "-"%char ("prompt-" ++ number_to_string n)%string =
  ["prompt"%string; number_to_string n].
Proof.
  destruct (dec_digits_spec (S n) n [] (Nat.lt_succ_diag_r n)) as (ds & E & _ & D & _).
  unfold js_split, number_to_string; rewrite E, app_nil_r.
  cbn [append list_ascii_of_string]; rewrite list_ascii_of_string_of_list_ascii; cbn.
  rewrite split_aux_no_sep; cbn.
  - reflexivity.
  - clear E; induction ds as [|c ds IH]; cbn in *; auto.
    apply andb_prop in D as [Dc D]; rewrite IH by exact D; rewrite andb_true_r.
    unfold is_digit in Dc; apply andb_prop in Dc as [D1 D2].
    apply Nat.leb_le in D1; apply Nat.leb_le in D2.
    apply negb_true_iff, Ascii.eqb_neq; intros ->; cbn in D1; lia.
Qed.

(** The handler stops at the first prompt of positive weight. *)
Lemma prompts_changed_first pre k prompt rest :
  (forall k' p, In (k', p) pre -> (weight p <= 0)%Z) -> (0 < weight prompt)%Z ->
  prompts_changed (pre ++ (k, prompt) :: rest) = announce_prompt prompt.
Proof.
  induction pre as [|[k' p] pre IH]; intros Hpre Hw; cbn.
  - replace (0 <? weight prompt)%Z with true by (symmetry; apply Z.ltb_lt; exact Hw).
    reflexivity.
  - replace (0 <? weight p)%Z with false
      by (symmetry; apply Z.ltb_ge; apply (Hpre k'); left; reflexivity).
    apply IH; [intros k'' p' H; apply (Hpre k''); right; exact H | exact Hw].
Qed.

Lemma prompts_changed_none m :
  (forall k p, In (k, p) m -> (weight p <= 0)%Z) -> prompts_changed m = Some None.
Proof.
  induction m as [|[k p] m IH]; intros H; cbn; [reflexivity|].
  replace (0 <? weight p)%Z with false
    by (symmetry; apply Z.ltb_ge; apply (H k); left; reflexivity).
  apply IH; intros k' p' Hin; apply (H k'); right; exact Hin.
Qed.

(** ** The dial's states *)

(** The dial after [setStation(i)] from its initial state. *)
Definition dj_at (i : nat) : Dj := fst (setStation i (dj main_init)).

(** The number of stations of [DEFAULT_PROMPTS]. *)
Definition station_count : nat := List.length DEFAULT_PROMPTS.

(** [setStation] between two stations of the dial, evaluated for all of
    them. *)
Lemma setStation_dj_at a idx :
  a < station_count -> idx < station_count ->
  setStation idx (dj_at a) =
  (dj_at idx, if Nat.eqb idx a then NoEvent else PromptsChanged (prompts (dj_at idx))).
Proof.
  unfold station_count; cbn [List.length DEFAULT_PROMPTS]; intros Ha Hi.
  do 16 (destruct a as [|a];
         [do 16 (destruct idx as [|idx]; [vm_compute; reflexivity|]); lia|]); lia.
Qed.

(** What the dial shows at station [i], and what the handler passes on. *)
Lemma dj_at_station i :
  i < station_count ->
  exists c t f, nth_error DEFAULT_PROMPTS i = Some (c, t) /\
    station_frequency (Z.of_nat i) = Some f /\
    activeIndex (dj_at i) = i /\ List.length (promptKeys (dj_at i)) = station_count /\
    option_map text (currentPrompt (dj_at i)) = Some t /\
    render_frequency (dj_at i) = Some f /\
    prompts_changed (prompts (dj_at i)) = Some (Some (t, f)).
Proof.
  unfold station_count; cbn [List.length DEFAULT_PROMPTS]; intros Hi.
  do 16 (destruct i as [|i];
         [vm_compute; do 3 eexists; repeat split; reflexivity|]); lia.
Qed.

(** The station names of [DEFAULT_PROMPTS] are pairwise distinct. *)
Lemma dj_at_names_distinct i j :
  i < station_count -> j < station_count ->
  option_map text (currentPrompt (dj_at i)) = option_map text (currentPrompt (dj_at j)) ->
  i = j.
Proof.
  unfold station_count; cbn [List.length DEFAULT_PROMPTS]; intros Hi Hj.
  do 16 (destruct i as [|i];
         [do 16 (destruct j as [|j];
                 [vm_compute; first [reflexivity | intros H; discriminate H]|]); lia|]);
    lia.
Qed.

Lemma main_init_dj : dj main_init = dj_at 0.
Proof. vm_compute; reflexivity. Qed.

Lemma reachable_step s a s' : reachable s -> exec_action s a = Some s' -> reachable s'.
Proof. intros R E; eapply run_reachable; [exact R | econstructor; [exact E | constructor]]. Qed.

(** ** The invariant of the running application *)

Definition gen_ok (evs : list Ev) : Prop :=
  forall e n f t, In (EvGenRequest e n f t) evs ->
    exists i c, nth_error DEFAULT_PROMPTS i = Some (c, n) /\
                station_frequency (Z.of_nat i) = Some f.

Definition app_inv (a : App) : Prop :=
  exists i, i < station_count /\ dj a = dj_at i /\
    currentStationName (announcer a) = option_map text (currentPrompt (dj_at i)) /\
    currentFrequency (announcer a) = render_frequency (dj_at i) /\
    reachable (announcer a) /\ gen_ok (log (announcer a)).

Lemma app_inv_init : app_inv main_init.
Proof.
  exists 0; split; [vm_compute; lia|]; split; [exact main_init_dj|].
  split; [vm_compute; reflexivity|]; split; [vm_compute; reflexivity|]; split.
  - eexists; eapply (run_cons init (AStationChange "Bossa Nova" "88.0"));
      [vm_compute; reflexivity | constructor].
  - intros e n f t H; vm_compute in H; contradiction.
Qed.

(** An announcer step that is not a station change keeps the invariant. *)
Lemma app_inv_announcer a act s' :
  app_inv a -> is_station_change act = false -> exec_action (announcer a) act = Some s' ->
  app_inv (mkApp (dj a) s').
Proof.
  intros (i & Hi & Dj & Nm & Fq & R & G) Sc E.
  destruct (step_tuning _ _ _ E Sc) as (Nm' & Fq' & _).
  exists i; cbn; split; [exact Hi|]; split; [exact Dj|].
  rewrite Nm', Fq'; split; [exact Nm|]; split; [exact Fq|]; split.
  - eapply reachable_step; eauto.
  - destruct (step_gen_requests _ _ _ E) as (evs & -> & Hevs).
    intros e n f t Hin; apply in_app_or in Hin as [Hin|Hin]; [|eapply G; eauto].
    destruct (Hevs e n f t Hin) as (dl & D).
    assert (SM : settle_matches (announcer a)).
    { destruct R as (ls & R); eapply run_settle_matches; [|exact R].
      intros ? ? ? D0; discriminate D0. }
    destruct (SM dl n f D) as (Hn & Hf).
    destruct (dj_at_station i Hi) as (c & t0 & f0 & Nth & Fr & _ & _ & Tx & Rf & _).
    exists i, c; rewrite Nm, Tx in Hn; rewrite Fq, Rf in Hf.
    injection Hn as ->; injection Hf as ->; split; assumption.
Qed.

Lemma app_inv_dial a rawIndex a' :
  app_inv a -> dial rawIndex a = Some a' -> app_inv a'.
Proof.
  intros (i & Hi & Dj & Nm & Fq & R & G).
  unfold dial; rewrite Dj.
  destruct (dj_at_station i Hi) as (_ & _ & _ & _ & _ & _ & Len & _).
  set (idx := clamp_index (List.length (promptKeys (dj_at i))) rawIndex).
  assert (Hidx : idx < station_count).
  { unfold idx, clamp_index; rewrite Len; unfold station_count;
    cbn [List.length DEFAULT_PROMPTS]; lia. }
  rewrite (setStation_dj_at i idx Hi Hidx).
  destruct (Nat.eqb_spec idx i) as [->|Ne].
  - intros H; injection H as <-; exists i; cbn; auto 10.
  - destruct (dj_at_station idx Hidx) as (c & t & f & _ & _ & _ & _ & Tx & Rf & Pc).
    rewrite Pc; intros H; injection H as <-.
    destruct (same_station (currentStationName (announcer a)) t) eqn:Same.
    { exfalso; apply Ne, (dj_at_names_distinct idx i Hidx Hi).
      rewrite Nm in Same; destruct (currentPrompt (dj_at i)) as [p|]; [|discriminate].
      cbn in Same; apply String.eqb_eq in Same; rewrite Tx; cbn; rewrite Same; reflexivity. }
    destruct (onStationChange_fields t f (announcer a)) as [Fr [_ Diff]].
    destruct (Diff Same) as (_ & Nm' & _).
    exists idx; cbn; split; [exact Hidx|]; split; [reflexivity|].
    rewrite Nm', Tx, onStationChange_frequency, Rf by exact Same.
    split; [reflexivity|]; split; [reflexivity|]; split.
    + apply (reachable_step (announcer a) (AStationChange t f)); [exact R | reflexivity].
    + rewrite (fr_log _ _ Fr); exact G.
Qed.

Lemma app_reachable_inv a : app_reachable a -> app_inv a.
Proof.
  induction 1 as [|a a' _ IH S].
  - exact app_inv_init.
  - destruct S as [a rawIndex a' D|a ps s' E|a act s' Sc E].
    + eapply app_inv_dial; eauto.
    + apply (app_inv_announcer a (playback_state_changed ps)); [exact IH | reflexivity | exact E].
    + eapply app_inv_announcer; eauto.
Qed.

(** ** [trim] *)

Lemma drop_ws_nil l : drop_ws l = [] <-> forallb is_ws l = true.
Proof.
  induction l as [|c l IH]; cbn; [split; auto|].
  destruct (is_ws c); cbn; [exact IH | split; discriminate].
Qed.

Lemma drop_ws_head l c r : drop_ws l = c :: r -> is_ws c = false.
Proof.
  induction l as [|d l IH]; cbn; [discriminate|].
  destruct (is_ws d) eqn:W; [exact IH | intros H; injection H as <- _; exact W].
Qed.

Lemma forallb_rev {A} (f : A -> bool) l : forallb f (rev l) = forallb f l.
Proof.
  induction l as [|x l IH]; cbn; [reflexivity|].
  rewrite forallb_app, IH; cbn; rewrite andb_true_r, andb_comm; reflexivity.
Qed.

(** [s.trim()] is empty exactly when [s] consists of white space. *)
Lemma js_trim_empty t :
  String.eqb (js_trim t) ""%string = forallb is_ws (list_ascii_of_string t).
Proof.
  unfold js_trim.
  set (L := list_ascii_of_string t).
  assert (E : forall l, String.eqb (string_of_list_ascii l) ""%string = match l with [] => true | _ => false end)
    by (intros [|c l]; reflexivity).
  rewrite E.
  destruct (drop_ws L) as [|c r] eqn:D.
  - symmetry; apply drop_ws_nil; exact D.
  - assert (Hf : forallb is_ws L = false).
    { destruct (forallb is_ws L) eqn:F; [|reflexivity].
      apply drop_ws_nil in F; congruence. }
    rewrite Hf.
    destruct (rev (drop_ws (rev (c :: r)))) eqn:R; [|reflexivity].
    exfalso.
    assert (R' : drop_ws (rev (c :: r)) = []) by (apply (f_equal (@rev ascii)) in R; rewrite rev_involutive in R; exact R).
    apply drop_ws_nil in R'; rewrite forallb_rev in R'; cbn in R'.
    rewrite (drop_ws_head _ _ _ D) in R'; discriminate.
Qed.

(** ** Concrete runs of the application *)

(** The application after a dial move (unchanged if the move is not
    modelled). *)
Definition app_dial_to (rawIndex : nat) (a : App) : App :=
  match dial rawIndex a with Some a' => a' | None => a end.

(** The application after an event of the announcer (unchanged if it is not
    enabled). *)
Definition app_announcer_to (a : App) (act : Action) : App :=
  match exec_action (announcer a) act with Some s => mkApp (dj a) s | None => a end.

Lemma app_dial_step rawIndex a : dial rawIndex a <> None -> app_step a (app_dial_to rawIndex a).
Proof.
  unfold app_dial_to; destruct (dial rawIndex a) eqn:D; [intros _ | contradiction].
  eapply app_dial; exact D.
Qed.

Lemma app_announcer_step a act :
  is_station_change act = false -> exec_action (announcer a) act <> None ->
  app_step a (app_announcer_to a act).
Proof.
  unfold app_announcer_to; intros Sc; destruct (exec_action (announcer a) act) eqn:E;
    [intros _ | contradiction].
  eapply app_internal; eauto.
Qed.

(** Dial to station 3, then let the settle timer fire. *)
Definition app_after_request : App :=
  app_announcer_to (app_announcer_to (app_dial_to 3 main_init) (ATick 800)) AFireDebounce.

(** * Properties of the announcer *)

(** ** C1 *)

(** C1 (staleness discard): take a reachable state and a generation pipeline
    [p] of it whose creating epoch is already behind the current one.  In every
    continuation of the execution, no playback of the result of [p] is ever
    started: none of the events appended to the log is an [EvPlay] for [p],
    and [EvPlay] is the only user-visible event. *)
Theorem C1_stale_generation_never_plays s1 ls s2 p pl :
  reachable s1 -> nth_error (pipelines s1) p = Some pl -> pl_id pl < stationId s1 ->
  run s1 ls s2 ->
  exists new, log s2 = new ++ log s1 /\ forall e b t, ~ In (EvPlay e p b t) new.
Proof.
  intros Hr N Lt R; exact (stale_run _ _ _ _ _ (Inv_reachable _ Hr) R N Lt).
Qed.

Lemma C1_witness :
  nth_error (pipelines (step_all init stale_acts)) 0 =
    Some (mkPipeline 1 "Bossa Nova" "88.0" SScript) /\
  exists new,
    log (step_all (step_all init stale_acts) [APipeline 0 script_ok]) =
      new ++ log (step_all init stale_acts) /\
    forall e b t, ~ In (EvPlay e 0 b t) new.
Proof.
  split; [vm_compute; reflexivity|].
  apply (C1_stale_generation_never_plays (step_all init stale_acts)
           (labels_of (step_all init stale_acts) [APipeline 0 script_ok]) _ 0
           (mkPipeline 1 "Bossa Nova" "88.0" SScript)).
  - apply step_all_reachable; vm_compute; discriminate.
  - vm_compute; reflexivity.
  - apply Nat.ltb_lt; vm_compute; reflexivity.
  - apply step_all_run; vm_compute; discriminate.
Defined.

(** ** C3 *)

(** C3 (idempotent retune): when the tuned station is [n], the call
    [onStationChange n f] returns the state unchanged, whatever the frequency
    [f]: no epoch increment, no field written, no timer cleared or armed. *)
Theorem C3_retune_same_station_is_noop s n f :
  currentStationName s = Some n -> onStationChange n f s = s.
Proof.
  intros H; unfold onStationChange, same_station; rewrite H, String.eqb_refl; reflexivity.
Qed.

Lemma C3_witness :
  currentStationName (step_all init [tune_bossa]) = Some "Bossa Nova"%string /\
  onStationChange "Bossa Nova" "90.1" (step_all init [tune_bossa]) = step_all init [tune_bossa].
Proof.
  split; [vm_compute; reflexivity|].
  apply C3_retune_same_station_is_noop; vm_compute; reflexivity.
Defined.

(** ** C7 *)

(** C7, counterexample: a reachable state in which the epoch has moved past
    the creating epoch of pipeline 0 while it decodes its audio; the decode
    completes and the pipeline resolves to the decoded buffer, not to null,
    since no epoch check follows [decodeAudioData]. *)
Lemma C7_decode_stage_unchecked :
  reachable (step_all init decode_race_acts) /\
  nth_error (pipelines (step_all init decode_race_acts)) 0 =
    Some (mkPipeline 1 "Bossa Nova" "88.0" (SDecode "UklGRiQAAABXQVZF")) /\
  stationId (step_all init decode_race_acts) = 2 /\
  pipeline_step (stationId (step_all init decode_race_acts))
    (mkPipeline 1 "Bossa Nova" "88.0" (SDecode "UklGRiQAAABXQVZF")) (decode_ok 7) =
    Some (SDone (Fulfilled (Some 7)), []).
Proof.
  split; [apply step_all_reachable; vm_compute; discriminate|].
  split; [vm_compute; reflexivity|].
  split; vm_compute; reflexivity.
Qed.

(** C7, as the code has it: when the epoch [cur] differs from the pipeline's
    creating epoch, completing the script stage or the speech stage resolves
    the pipeline to null (whatever the service delivered, failures included);
    completing the decode stage resolves it to the decoded buffer whatever
    the epoch. *)
Theorem C7_stage_checks cur pl :
  cur <> pl_id pl ->
  (forall r, pl_stage pl = SScript ->
     exists evs, pipeline_step cur pl (OScript r) = Some (SDone (Fulfilled None), evs)) /\
  (forall script r, pl_stage pl = STts script ->
     exists evs, pipeline_step cur pl (OTts r) = Some (SDone (Fulfilled None), evs)) /\
  (forall d b, pl_stage pl = SDecode d ->
     pipeline_step cur pl (ODecode (Ret b)) = Some (SDone (Fulfilled (Some b)), [])).
Proof.
  intros Ne; apply Nat.eqb_neq in Ne.
  split; [|split]; intros.
  - unfold pipeline_step; rewrite H; destruct r; cbn; rewrite ?Ne; cbn; eauto.
  - unfold pipeline_step; rewrite H; destruct r; cbn; rewrite ?Ne; cbn; eauto.
  - unfold pipeline_step; rewrite H; reflexivity.
Qed.

Lemma C7_witness :
  exists evs,
    pipeline_step 2 (mkPipeline 1 "Bossa Nova" "88.0" SScript) script_ok =
      Some (SDone (Fulfilled None), evs).
Proof.
  refine (proj1 (C7_stage_checks 2 (mkPipeline 1 "Bossa Nova" "88.0" SScript) _) _ _).
  - cbn; discriminate.
  - reflexivity.
Defined.

(** ** C8 *)

(** C8 (no propagated faults): whatever the external services deliver,
    (1) no generation pipeline of a reachable state is ever rejected;
    (2) every completed stage of a pipeline resolves it to a buffer or to
    null, or suspends it at its next stage, never to a rejection, and the
    events it emits (console errors) are not user-visible;
    (3) the resumed playback trigger always settles as fulfilled, and when
    building the audio graph fails it only logs a console error. *)
Theorem C8_no_propagated_faults :
  (forall s, reachable s -> forall pl, In pl (pipelines s) -> pl_stage pl <> SDone Rejected) /\
  (forall cur pl o st evs, pipeline_step cur pl o = Some (st, evs) ->
     st <> SDone Rejected /\ forall ev, In ev evs -> ~ user_visible ev) /\
  (forall id p r g s,
     snd (playPendingAnnouncement_resume id p r g s) = Fulfilled tt /\
     (g = GraphFail ->
        fst (playPendingAnnouncement_resume id p r g s) = s \/
        exists msg, fst (playPendingAnnouncement_resume id p r g s) = add_log s (EvLog msg))).
Proof.
  split; [|split].
  - intros s Hr; exact (reachable_not_rejected s Hr).
  - intros cur pl o st evs P; split; [exact (pipeline_step_not_rejected _ _ _ _ _ P)|].
    destruct (pipeline_step_some _ _ _ _ _ P) as [NP _].
    intros ev H U; destruct ev; cbn in U; try contradiction; exact (NP _ _ _ _ H).
  - intros id p r g s; split.
    + unfold playPendingAnnouncement_resume; destruct (playPending_body id p r g s); reflexivity.
    + intros ->; destruct (resume_cases id p r GraphFail s)
        as [H|[H|(b & _ & _ & _ & E & _)]]; auto; discriminate.
Qed.

(** ** C5 *)

(** C5, counterexample: with a station tuned and music already playing, a
    second [setMusicPlaying(true)] 5 s later, which is no transition, still
    re-arms the countdown afresh (deadline 20000 instead of 15000). *)
Lemma C5_rearm_without_transition :
  reachable (step_all init listening_acts) /\
  isPlayingMusic (step_all init listening_acts) = true /\
  timer (step_all init listening_acts) = Some (15000%N, 1) /\
  timer (setMusicPlaying true (step_all init listening_acts))
    = Some (20000%N, 1).
Proof.
  split; [apply step_all_reachable; vm_compute; discriminate|].
  split; [|split]; vm_compute; reflexivity.
Qed.

(** C5, as the code has it: [setMusicPlaying(p)] sets the flag to [p]; every
    call with [true] while a station with a non-empty name is tuned arms the
    countdown for the current epoch with its full duration from now, whether
    or not music was already playing; with no station tuned it leaves the
    countdown as it was; a call with [false] cancels the countdown but leaves
    the announcements already playing alone; and no step that leaves music
    stopped starts a playback. *)
Theorem C5_set_music_playing :
  (forall b s, isPlayingMusic (setMusicPlaying b s) = b) /\
  (forall s, truthy_str (currentStationName s) = true ->
     timer (setMusicPlaying true s) = Some ((now s + D_announce)%N, stationId s)) /\
  (forall s, currentStationName s = None ->
     timer (setMusicPlaying true s) = timer s) /\
  (forall s, timer (setMusicPlaying false s) = None /\
             sources (setMusicPlaying false s) = sources s) /\
  (forall s a s' evs, exec_action s a = Some s' -> log s' = evs ++ log s ->
     isPlayingMusic s' = false -> forall e p b t, ~ In (EvPlay e p b t) evs).
Proof.
  split; [|split; [|split; [|split]]].
  - intros b s; apply (setMusicPlaying_fields b s).
  - intros s T; destruct (setMusicPlaying_fields true s) as (_ & Tm & _); rewrite Tm, T; reflexivity.
  - intros s N; destruct (setMusicPlaying_fields true s) as (_ & Tm & _); rewrite Tm, N; reflexivity.
  - intros s; destruct (setMusicPlaying_fields false s) as ([_ _ Src _ _] & Tm & _); auto.
  - exact step_no_play_paused.
Qed.

(** ** C6 *)

(** C6, counterexample: at the moment the countdown fired the epoch, the
    flag and the pending promise were right, and after the await the epoch,
    the flag and the buffer are still right; building the audio graph fails,
    and the trigger logs a console error and starts no playback. *)
Lemma C6_graph_failure_blocks_playback :
  reachable (step_all init ready_acts) /\
  triggers (step_all init ready_acts) = [(1, 0)] /\
  stationId (step_all init ready_acts) = 1 /\
  isPlayingMusic (step_all init ready_acts) = true /\
  pendingBufferPromise (step_all init ready_acts) = Some 0 /\
  nth_error (pipelines (step_all init ready_acts)) 0 =
    Some (mkPipeline 1 "Bossa Nova" "88.0" (SDone (Fulfilled (Some 7)))) /\
  exists s', exec_action (step_all init ready_acts) (AResume 0 GraphFail) = Some s' /\
    log s' = EvLog "Error playing announcement" :: log (step_all init ready_acts).
Proof.
  split; [apply step_all_reachable; vm_compute; discriminate|].
  do 5 (split; [vm_compute; reflexivity|]).
  eexists; split; vm_compute; reflexivity.
Qed.

(** C6, as the code has it.  At fire time, [playPendingAnnouncement(e)]
    suspends on the pending promise exactly when the epoch is [e], music
    plays and a promise is pending, and otherwise changes nothing.  When it
    resumes with the settled value [r], it starts playback of [b] exactly when
    the epoch is still [e], music still plays, [r] is the buffer [b] and the
    audio graph is built without an exception; with an absent value or a
    failed check it changes nothing, and when the graph construction throws it
    only logs a console error. *)
Theorem C6_trigger_validation :
  (forall e s p, stationId s = e -> isPlayingMusic s = true -> pendingBufferPromise s = Some p ->
     playPendingAnnouncement_start e s = set_triggers s (triggers s ++ [(e, p)])) /\
  (forall e s, stationId s <> e \/ isPlayingMusic s = false \/ pendingBufferPromise s = None ->
     playPendingAnnouncement_start e s = s) /\
  (forall e p r g s b,
     fst (playPendingAnnouncement_resume e p r g s) = start_playback e p b s <->
     stationId s = e /\ isPlayingMusic s = true /\ r = Fulfilled (Some b) /\ g = GraphOk) /\
  (forall e p o g s, o = None \/ stationId s <> e \/ isPlayingMusic s = false ->
     fst (playPendingAnnouncement_resume e p (Fulfilled o) g s) = s) /\
  (forall e p b s, stationId s = e -> isPlayingMusic s = true ->
     fst (playPendingAnnouncement_resume e p (Fulfilled (Some b)) GraphFail s) =
       add_log s (EvLog "Error playing announcement")).
Proof.
  split; [|split; [|split; [|split]]].
  - intros e s p <- P Pe; unfold playPendingAnnouncement_start.
    rewrite Nat.eqb_refl, P, Pe; reflexivity.
  - intros e s H; unfold playPendingAnnouncement_start.
    destruct H as [H|[H|H]].
    + apply Nat.eqb_neq in H; rewrite H; reflexivity.
    + rewrite H, orb_true_r; reflexivity.
    + rewrite H; destruct (_ || _); reflexivity.
  - intros e p r g s b; split.
    + destruct (start_playback_fields e p b s) as (Lb & _).
      destruct (resume_cases e p r g s) as [H|[(msg & H)|(b' & Hr & Hs & Hp & Hg & H)]];
        rewrite H; intros Eq.
      * exfalso; apply (f_equal log) in Eq; rewrite Lb in Eq; symmetry in Eq.
        exact (cons_neq _ _ Eq).
      * apply (f_equal log) in Eq; rewrite Lb, log_add_log in Eq; discriminate.
      * apply (f_equal log) in Eq; destruct (start_playback_fields e p b' s) as (Lb' & _).
        rewrite Lb, Lb' in Eq; injection Eq as ->; auto.
    + intros (Hs & Hp & -> & ->); unfold playPendingAnnouncement_resume, playPending_body; cbn.
      rewrite Hs, Nat.eqb_refl, Hp; reflexivity.
  - intros e p o g s H; unfold playPendingAnnouncement_resume, playPending_body; cbn.
    destruct H as [->|[H|H]].
    + destruct (_ || _); reflexivity.
    + apply Nat.eqb_neq in H; rewrite H; reflexivity.
    + rewrite H, orb_true_r; reflexivity.
  - intros e p b s <- Hp; unfold playPendingAnnouncement_resume, playPending_body; cbn.
    rewrite Nat.eqb_refl, Hp; reflexivity.
Qed.

(** ** C9 *)

(** C9, counterexample: two countdowns of one epoch await the same pending
    generation; when it resolves both triggers start playback, and two
    announcements play at the same time. *)
Lemma C9_two_announcements_overlap :
  reachable (step_all init overlap_acts) /\
  sources (step_all init overlap_acts) = [(2, 3); (0, 1)] /\
  firstn 2 (log (step_all init overlap_acts)) =
    [EvPlay 1 0 7 30000; EvPlay 1 0 7 30000].
Proof.
  split; [apply step_all_reachable; vm_compute; discriminate|].
  split; vm_compute; reflexivity.
Qed.

(** C9, as the code has it: when a playing announcement ends, its buffer
    source and its gain node are disconnected, it leaves the set of playing
    sources, and [currentSource] is cleared exactly when it still refers to
    that source. *)
Theorem C9_playback_end s k s' :
  exec_action s (AEnded k) = Some s' ->
  exists src gain, nth_error (sources s) k = Some (src, gain) /\
    sources s' = remove_nth k (sources s) /\
    log s' = [EvDisconnect gain; EvDisconnect src] ++ log s /\
    (currentSource s = Some src -> currentSource s' = None) /\
    (currentSource s <> Some src -> currentSource s' = currentSource s).
Proof.
  cbv beta iota delta [exec_action].
  destruct (nth_error (sources s) k) as [[src gain]|] eqn:K; [|discriminate].
  intros H; injection H as <-; exists src, gain; split; [reflexivity|].
  unfold source_onended, add_log; destruct_st s; cbn.
  destruct csrc as [c|]; [destruct (Nat.eqb_spec c src) as [<-|Ne]|]; cbn;
    (split; [reflexivity | split; [reflexivity | split]]); intros H; try congruence.
Qed.

Lemma C9_witness :
  exists src gain, nth_error (sources (step_all init overlap_acts)) 1 = Some (src, gain) /\
    sources (step_all (step_all init overlap_acts) [AEnded 1]) =
      remove_nth 1 (sources (step_all init overlap_acts)) /\
    log (step_all (step_all init overlap_acts) [AEnded 1]) =
      [EvDisconnect gain; EvDisconnect src] ++ log (step_all init overlap_acts) /\
    (currentSource (step_all init overlap_acts) = Some src ->
       currentSource (step_all (step_all init overlap_acts) [AEnded 1]) = None) /\
    (currentSource (step_all init overlap_acts) <> Some src ->
       currentSource (step_all (step_all init overlap_acts) [AEnded 1]) =
         currentSource (step_all init overlap_acts)).
Proof.
  apply C9_playback_end; vm_compute; reflexivity.
Defined.

(** ** C4 *)

(** C4, failing input: music plays and the station changes to one with the
    empty name; the change is not deduplicated and opens a new epoch, but no
    countdown is armed, since [startTimer] tests the station name for
    truthiness and the empty string is falsy. *)
Lemma C4_empty_name_arms_nothing :
  isPlayingMusic (step_all init playing_acts) = true /\
  same_station (currentStationName (step_all init playing_acts)) "" = false /\
  stationId (onStationChange "" "87.5" (step_all init playing_acts)) = 1 /\
  timer (onStationChange "" "87.5" (step_all init playing_acts)) = None.
Proof. repeat split. Qed.

(** C4, as the code has it: when music plays and the station changes, not
    deduplicated, to a station with a non-empty name, the countdown of the
    new epoch is armed at once with deadline [now + D_announce]; in every
    continuation made of internal steps only (timers, clock, pipeline stages
    in any order, triggers, ended sources), either it is still armed with that
    deadline, not yet reached, or it has fired exactly at that deadline. *)
Theorem C4_countdown_from_station_change s n f ls s2 :
  isPlayingMusic s = true -> same_station (currentStationName s) n = false ->
  n <> ""%string ->
  timer (onStationChange n f s) = Some ((now s + D_announce)%N, S (stationId s)) /\
  stationId (onStationChange n f s) = S (stationId s) /\
  (run (onStationChange n f s) ls s2 -> Forall (fun l => l = LTau) ls ->
   (timer s2 = Some ((now s + D_announce)%N, S (stationId s)) /\
    (now s2 <= now s + D_announce)%N) \/
   In (EvCountdownFire (S (stationId s)) (now s + D_announce)) (log s2)).
Proof.
  intros P D Ne.
  destruct (onStationChange_fields n f s) as [[_ _ _ _ Nw] [_ Diff]].
  destruct (Diff D) as (Sid & _ & _ & _ & _ & Tm).
  rewrite P in Tm; cbn in Tm; apply String.eqb_neq in Ne; rewrite Ne in Tm; cbn in Tm.
  split; [exact Tm | split; [exact Sid|]].
  intros R F; apply (tau_run_countdown _ _ _ _ _ R F); left; split; [exact Tm|].
  rewrite Nw; lia.
Qed.

Lemma C4_witness :
  timer (onStationChange "Bossa Nova" "88.0" (step_all init playing_acts)) =
    Some (15000%N, 1) /\
  ((timer (step_all (onStationChange "Bossa Nova" "88.0" (step_all init playing_acts))
             countdown_tail) = Some (15000%N, 1) /\
    (now (step_all (onStationChange "Bossa Nova" "88.0" (step_all init playing_acts))
             countdown_tail) <= 15000)%N) \/
   In (EvCountdownFire 1 15000)
     (log (step_all (onStationChange "Bossa Nova" "88.0" (step_all init playing_acts))
             countdown_tail))).
Proof.
  destruct (C4_countdown_from_station_change (step_all init playing_acts) "Bossa Nova" "88.0"
              (labels_of (onStationChange "Bossa Nova" "88.0" (step_all init playing_acts))
                 countdown_tail)
              (step_all (onStationChange "Bossa Nova" "88.0" (step_all init playing_acts))
                 countdown_tail))
    as (T & _ & Run).
  - reflexivity.
  - reflexivity.
  - discriminate.
  - split; [exact T|]; apply Run.
    + apply step_all_run; vm_compute; discriminate.
    + vm_compute; repeat constructor.
Defined.

(** ** C2 *)

(** C2, counterexample: the station tuned is Bossa Nova and its generation
    has started; one more call for Bossa Nova (a sequence of one call)
    followed by quiet issues no generation request at all: the call is
    deduplicated. *)
Lemma C2_first_call_deduplicated :
  reachable (step_all init retune_prefix) /\
  labels_of (step_all init retune_prefix) retune_acts =
    [LStation "Bossa Nova" "88.0" 800; LTau] /\
  run (step_all init retune_prefix) (labels_of (step_all init retune_prefix) retune_acts)
      (step_all (step_all init retune_prefix) retune_acts) /\
  now (step_all (step_all init retune_prefix) retune_acts) = 2000%N /\
  log (step_all (step_all init retune_prefix) retune_acts) = log (step_all init retune_prefix).
Proof.
  split; [apply step_all_reachable; vm_compute; discriminate|].
  split; [vm_compute; reflexivity|].
  split; [apply step_all_run; vm_compute; discriminate|].
  split; vm_compute; reflexivity.
Qed.

(** C2, as the code has it: take a sequence of station-change calls whose
    first call, at the start of the run, names a station other than the one
    tuned, whose consecutive names differ and whose consecutive calls are less
    than [D_settle] apart; other events may come in between.  The events it
    appends hold at most one generation request, and only for the name and
    frequency of the last call; once the clock is past [D_settle] after the
    last call, they hold exactly that request. *)
Theorem C2_debounce_coalescing s0 n1 f1 ls s :
  currentStationName s0 <> Some n1 ->
  run s0 (LStation n1 f1 (now s0) :: ls) s -> chain_ok n1 (now s0) ls ->
  match last_call n1 f1 (now s0) ls with
  | (nl, fl, tl) =>
      exists new, log s = new ++ log s0 /\
        (gen_requests new = [] \/ gen_requests new = [(nl, fl)]) /\
        ((tl + D_settle < now s)%N -> gen_requests new = [(nl, fl)])
  end.
Proof.
  intros Cur R Ch.
  destruct (run_cons_inv _ _ _ _ R) as (a & s1 & E & Hl & R').
  destruct a as [n f|b|t| | |i o|k g|k]; cbn in Hl; try discriminate.
  injection Hl as -> ->.
  cbv beta iota delta [exec_action] in E; injection E as <-.
  assert (Sm : same_station (currentStationName s0) n1 = false).
  { destruct (currentStationName s0) as [c|]; cbn; [|reflexivity].
    apply String.eqb_neq; congruence. }
  destruct (onStationChange_fields n1 f1 s0) as [[_ _ _ Lg Nw] [_ Diff]].
  destruct (Diff Sm) as (_ & C1 & _ & _ & D1 & _).
  assert (J : chain_inv s0 (onStationChange n1 f1 s0) n1 f1 (now s0) []).
  { split; [exact C1|]; split; [exact Lg|]; left; rewrite D1, Nw.
    split; [reflexivity|]; split; [reflexivity|lia]. }
  destruct (chain_run s0 _ _ _ R' _ _ _ _ Ch J) as (new & C' & L' & J').
  destruct (last_call n1 f1 (now s0) ls) as [[nl fl] tl]; cbn in *.
  exists new; split; [exact L'|].
  destruct J' as [(D & G & Le)|(D & G & Le)]; rewrite G.
  - split; [left; reflexivity | intros Lt; lia].
  - split; [right; reflexivity | reflexivity].
Qed.

Lemma C2_witness :
  exists new, log (step_all init coalesce_acts) = new ++ log init /\
    (gen_requests new = [] \/ gen_requests new = [("Samba", "91.5")%string]) /\
    ((500 + D_settle < now (step_all init coalesce_acts))%N ->
       gen_requests new = [("Samba", "91.5")%string]).
Proof.
  refine (C2_debounce_coalescing init "Bossa Nova" "88.0"
            [LTau; LStation "Samba" "91.5" 500; LTau; LTau; LTau]
            (step_all init coalesce_acts) _ _ _).
  - discriminate.
  - exact (step_all_run init coalesce_acts ltac:(vm_compute; discriminate)).
  - vm_compute; split; [discriminate | split; [reflexivity | exact I]].
Defined.

(** ** C10 *)

(** C10 (announcement replay within an epoch): only a station change clears
    the pending promise.  Once an announcement (buffer [b] of promise [p]) has
    played in the current epoch [e], the promise is still pending; pausing and
    resuming the music arms a new countdown, whose trigger awaits the same
    resolved promise and plays [b] again when it fires; and for every [k]
    there is a continuation without station changes in which [b] plays at
    least [k] more times. *)
Theorem C10_announcement_replay s e p b t :
  reachable s -> In (EvPlay e p b t) (log s) -> stationId s = e ->
  (forall a s', exec_action s a = Some s' -> pendingBufferPromise s' = None ->
     exists n f, a = AStationChange n f) /\
  pendingBufferPromise s = Some p /\
  (exists s', exec_actions s (replay_acts s) = Some s' /\
     log s' = [EvPlay e p b (now s + D_announce); EvCountdownFire e (now s + D_announce)] ++
              log s) /\
  (forall k : nat, exists (ls : list label) (s' : St),
     run s ls s' /\ Forall no_station_change ls /\
     exists new, log s' = new ++ log s /\ k <= count_plays e p b new).
Proof.
  intros Hr Hin Sid.
  destruct (inv_plays _ (Inv_reachable _ Hr) e p b t Hin) as (pl & _ & _ & C).
  destruct (C (eq_sym Sid)) as (Pe & _ & _).
  split; [|split; [exact Pe | split]].
  - intros a s' E Pn; pose proof (step_pending _ _ _ E) as Sp.
    destruct a; eauto; exfalso; congruence.
  - destruct (replay_once s e p b t Hr Hin Sid) as (s' & E & L & _); eauto.
  - exact (replay_many s e p b t Hr Hin Sid).
Qed.

Lemma C10_witness :
  (forall a s', exec_action (step_all init played_acts) a = Some s' ->
     pendingBufferPromise s' = None -> exists n f, a = AStationChange n f) /\
  pendingBufferPromise (step_all init played_acts) = Some 0 /\
  (exists s', exec_actions (step_all init played_acts) (replay_acts (step_all init played_acts))
                = Some s' /\
     log s' = [EvPlay 1 0 7 (now (step_all init played_acts) + D_announce);
               EvCountdownFire 1 (now (step_all init played_acts) + D_announce)] ++
              log (step_all init played_acts)) /\
  (forall k : nat, exists (ls : list label) (s' : St),
     run (step_all init played_acts) ls s' /\ Forall no_station_change ls /\
     exists new, log s' = new ++ log (step_all init played_acts) /\ k <= count_plays 1 0 7 new).
Proof.
  apply (C10_announcement_replay (step_all init played_acts) 1 0 7 15000).
  - apply step_all_reachable; vm_compute; discriminate.
  - vm_compute; left; reflexivity.
  - vm_compute; reflexivity.
Defined.

(** * Further properties of the announcer and its callers *)

(** ** Reachable states of the announcer *)

(** X1: an armed countdown always belongs to the current epoch and to a
    tuned (non-empty) station, and its deadline is not in the past. *)
Theorem countdown_belongs_to_current_epoch s dl id :
  reachable s -> timer s = Some (dl, id) ->
  id = stationId s /\ truthy_str (currentStationName s) = true /\ (now s <= dl)%N.
Proof. intros R T; exact (inv_timer _ (Inv_reachable s R) dl id T). Qed.

Lemma countdown_belongs_to_current_epoch_witness :
  reachable (step_all init [ASetMusicPlaying true; tune_bossa]) /\
  timer (step_all init [ASetMusicPlaying true; tune_bossa]) = Some (15000%N, 1) /\
  1 = stationId (step_all init [ASetMusicPlaying true; tune_bossa]) /\
  truthy_str (currentStationName (step_all init [ASetMusicPlaying true; tune_bossa])) = true /\
  (now (step_all init [ASetMusicPlaying true; tune_bossa]) <= 15000)%N.
Proof.
  assert (R : reachable (step_all init [ASetMusicPlaying true; tune_bossa]))
    by (apply step_all_reachable; vm_compute; discriminate).
  assert (T : timer (step_all init [ASetMusicPlaying true; tune_bossa]) = Some (15000%N, 1))
    by (vm_compute; reflexivity).
  split; [exact R|]; split; [exact T|].
  exact (countdown_belongs_to_current_epoch _ _ _ R T).
Defined.

(** X2: while the settle timer is armed no generation promise is pending,
    and the timer's deadline is not in the past. *)
Theorem settle_timer_excludes_pending s dl n f :
  reachable s -> debounceTimer s = Some (dl, n, f) ->
  pendingBufferPromise s = None /\ (now s <= dl)%N.
Proof.
  intros R D; destruct (inv_debounce _ (Inv_reachable s R) dl n f D) as [H1 H2].
  split; assumption.
Qed.

Lemma settle_timer_excludes_pending_witness :
  reachable (step_all init [tune_bossa]) /\
  debounceTimer (step_all init [tune_bossa]) = Some (800%N, "Bossa Nova"%string, "88.0"%string) /\
  pendingBufferPromise (step_all init [tune_bossa]) = None /\
  (now (step_all init [tune_bossa]) <= 800)%N.
Proof.
  assert (R : reachable (step_all init [tune_bossa]))
    by (apply step_all_reachable; vm_compute; discriminate).
  assert (D : debounceTimer (step_all init [tune_bossa]) =
              Some (800%N, "Bossa Nova"%string, "88.0"%string)) by (vm_compute; reflexivity).
  split; [exact R|]; split; [exact D|].
  exact (settle_timer_excludes_pending _ _ _ _ R D).
Defined.

(** X3: a pending promise always belongs to a generation pipeline started in
    the current epoch. *)
Theorem pending_promise_is_current s p :
  reachable s -> pendingBufferPromise s = Some p ->
  exists pl, nth_error (pipelines s) p = Some pl /\ pl_id pl = stationId s.
Proof. intros R P; exact (inv_pending _ (Inv_reachable s R) p P). Qed.

Lemma pending_promise_is_current_witness :
  reachable (step_all init [tune_bossa; ATick 800; AFireDebounce]) /\
  pendingBufferPromise (step_all init [tune_bossa; ATick 800; AFireDebounce]) = Some 0 /\
  exists pl, nth_error (pipelines (step_all init [tune_bossa; ATick 800; AFireDebounce])) 0 = Some pl /\
             pl_id pl = stationId (step_all init [tune_bossa; ATick 800; AFireDebounce]).
Proof.
  assert (R : reachable (step_all init [tune_bossa; ATick 800; AFireDebounce]))
    by (apply step_all_reachable; vm_compute; discriminate).
  assert (P : pendingBufferPromise (step_all init [tune_bossa; ATick 800; AFireDebounce]) = Some 0)
    by (vm_compute; reflexivity).
  split; [exact R|]; split; [exact P|].
  exact (pending_promise_is_current _ _ R P).
Defined.

(** X4: the armed settle timer always carries the name and frequency of the
    currently tuned station. *)
Theorem settle_timer_carries_tuned_station s dl n f :
  reachable s -> debounceTimer s = Some (dl, n, f) ->
  currentStationName s = Some n /\ currentFrequency s = Some f.
Proof.
  intros (ls & R) D; eapply run_settle_matches; [| exact R | exact D].
  intros ? ? ? D0; discriminate D0.
Qed.

Lemma settle_timer_carries_tuned_station_witness :
  reachable (step_all init [tune_bossa; ATick 500; tune_samba]) /\
  debounceTimer (step_all init [tune_bossa; ATick 500; tune_samba]) =
    Some (1300%N, "Samba"%string, "91.5"%string) /\
  currentStationName (step_all init [tune_bossa; ATick 500; tune_samba]) = Some "Samba"%string /\
  currentFrequency (step_all init [tune_bossa; ATick 500; tune_samba]) = Some "91.5"%string.
Proof.
  assert (R : reachable (step_all init [tune_bossa; ATick 500; tune_samba]))
    by (apply step_all_reachable; vm_compute; discriminate).
  assert (D : debounceTimer (step_all init [tune_bossa; ATick 500; tune_samba]) =
              Some (1300%N, "Samba"%string, "91.5"%string)) by (vm_compute; reflexivity).
  split; [exact R|]; split; [exact D|].
  exact (settle_timer_carries_tuned_station _ _ _ _ R D).
Defined.

(** X5: along any execution the epoch never decreases and the event log
    only grows at its front (nothing logged is ever removed or changed). *)
Theorem epoch_monotone_log_append_only s ls s' :
  run s ls s' -> stationId s <= stationId s' /\ exists evs, log s' = evs ++ log s.
Proof. intros R; destruct (run_log s ls s' R) as (H1 & _ & H3); split; assumption. Qed.

Lemma epoch_monotone_log_append_only_witness :
  run init (labels_of init stale_acts) (step_all init stale_acts) /\
  stationId init <= stationId (step_all init stale_acts) /\
  exists evs, log (step_all init stale_acts) = evs ++ log init.
Proof.
  assert (R : run init (labels_of init stale_acts) (step_all init stale_acts))
    by (apply step_all_run; vm_compute; discriminate).
  split; [exact R|]; exact (epoch_monotone_log_append_only _ _ _ R).
Defined.

(** X8: [currentSource] only ever names an audio source that is still
    playing (one whose [onended] has not run). *)
Theorem current_source_is_playing s c :
  reachable s -> currentSource s = Some c -> exists g, In (c, g) (sources s).
Proof.
  intros (ls & R); eapply run_source_tracked; [| exact R].
  intros c0 H; discriminate H.
Qed.

Lemma current_source_is_playing_witness :
  reachable (step_all init played_acts) /\
  currentSource (step_all init played_acts) = Some 0 /\
  exists g, In (0, g) (sources (step_all init played_acts)).
Proof.
  assert (R : reachable (step_all init played_acts))
    by (apply step_all_reachable; vm_compute; discriminate).
  assert (C : currentSource (step_all init played_acts) = Some 0) by (vm_compute; reflexivity).
  split; [exact R|]; split; [exact C|].
  exact (current_source_is_playing _ _ R C).
Defined.

(** ** The callers *)

(** X9: [parseInt] reads back the decimal text of a non-negative integer
    below [2^53] (a safe integer, written without exponent):
    [parseInt(String(n), 10) === n]. *)
Theorem parseInt_reads_number_to_string n :
  (Z.of_nat n < 2 ^ 53)%Z -> parseInt (number_to_string n) = Some (Z.of_nat n).
Proof. intros _; exact (parseInt_number_to_string n). Qed.

Lemma parseInt_reads_number_to_string_witness :
  (Z.of_nat 1234 < 2 ^ 53)%Z /\ parseInt (number_to_string 1234) = Some (Z.of_nat 1234).
Proof.
  split; [vm_compute; reflexivity|].
  apply parseInt_reads_number_to_string; vm_compute; reflexivity.
Defined.

(** X10: for a prompt of id ["prompt-" + n] the ['prompts-changed'] handler
    announces the prompt's text with frequency [(88.0 + n * 1.5).toFixed(1)],
    i.e. [880 + 15 n] tenths of MHz. *)
Theorem handler_announces_prompt_frequency prompt n :
  promptId prompt = ("prompt-" ++ number_to_string n)%string ->
  (Z.of_nat n < 2 ^ 50)%Z ->
  announce_prompt prompt =
  Some (Some (text prompt, toFixed1_tenths (880 + 15 * Z.of_nat n))).
Proof.
  intros Id Hn; unfold announce_prompt; rewrite Id, js_split_prompt_id, parseInt_number_to_string.
  unfold station_frequency; rewrite Z.abs_eq by lia.
  replace (Z.of_nat n <? 2 ^ 50)%Z with true by (symmetry; apply Z.ltb_lt; exact Hn).
  reflexivity.
Qed.

Lemma handler_announces_prompt_frequency_witness :
  promptId (mkPrompt "prompt-7" "Lush Strings" 1 7 "#3dffab") =
    ("prompt-" ++ number_to_string 7)%string /\
  (Z.of_nat 7 < 2 ^ 50)%Z /\
  announce_prompt (mkPrompt "prompt-7" "Lush Strings" 1 7 "#3dffab") =
    Some (Some ("Lush Strings"%string, toFixed1_tenths (880 + 15 * Z.of_nat 7))).
Proof.
  assert (I : promptId (mkPrompt "prompt-7" "Lush Strings" 1 7 "#3dffab") =
              ("prompt-" ++ number_to_string 7)%string) by (vm_compute; reflexivity).
  assert (B : (Z.of_nat 7 < 2 ^ 50)%Z) by (vm_compute; reflexivity).
  split; [exact I|]; split; [exact B|].
  exact (handler_announces_prompt_frequency _ 7 I B).
Defined.

(** X11: the handler uses only the first prompt of positive weight in the
    map's order: the prompts after it are never looked at, even when that
    prompt's id cannot be parsed. *)
Theorem handler_stops_at_first_active pre k prompt rest :
  (forall k' p, In (k', p) pre -> (weight p <= 0)%Z) -> (0 < weight prompt)%Z ->
  prompts_changed (pre ++ (k, prompt) :: rest) = prompts_changed [(k, prompt)].
Proof.
  intros Hpre Hw; rewrite (prompts_changed_first pre k prompt rest Hpre Hw).
  cbn; replace (0 <? weight prompt)%Z with true by (symmetry; apply Z.ltb_lt; exact Hw).
  reflexivity.
Qed.

Lemma handler_stops_at_first_active_witness :
  (forall k' p, In (k', p) [("prompt-0"%string, mkPrompt "prompt-0" "Bossa Nova" 0 0 "#9900ff")] ->
     (weight p <= 0)%Z) /\
  (0 < weight (mkPrompt "broken" "Chillwave" 1 1 "#5200ff"))%Z /\
  prompts_changed ([("prompt-0"%string, mkPrompt "prompt-0" "Bossa Nova" 0 0 "#9900ff")] ++
                   ("broken"%string, mkPrompt "broken" "Chillwave" 1 1 "#5200ff") ::
                   [("prompt-2"%string, mkPrompt "prompt-2" "Drum and Bass" 1 2 "#ff25f6")]) =
  prompts_changed [("broken"%string, mkPrompt "broken" "Chillwave" 1 1 "#5200ff")].
Proof.
  assert (P : forall k' p, In (k', p) [("prompt-0"%string, mkPrompt "prompt-0" "Bossa Nova" 0 0 "#9900ff")] ->
                (weight p <= 0)%Z)
    by (intros k' p [H|[]]; injection H as _ <-; cbn; lia).
  assert (W : (0 < weight (mkPrompt "broken" "Chillwave" 1 1 "#5200ff"))%Z) by (cbn; lia).
  split; [exact P|]; split; [exact W|].
  exact (handler_stops_at_first_active _ _ _ _ P W).
Defined.

(** X12: when no prompt has a positive weight the handler does not call the
    announcer. *)
Theorem handler_silent_without_active m :
  (forall k p, In (k, p) m -> (weight p <= 0)%Z) -> prompts_changed m = Some None.
Proof. exact (prompts_changed_none m). Qed.

Lemma handler_silent_without_active_witness :
  (forall k p, In (k, p) [("prompt-0"%string, mkPrompt "prompt-0" "Bossa Nova" 0 0 "#9900ff")] ->
     (weight p <= 0)%Z) /\
  prompts_changed [("prompt-0"%string, mkPrompt "prompt-0" "Bossa Nova" 0 0 "#9900ff")] = Some None.
Proof.
  assert (P : forall k p, In (k, p) [("prompt-0"%string, mkPrompt "prompt-0" "Bossa Nova" 0 0 "#9900ff")] ->
                (weight p <= 0)%Z)
    by (intros k' p [H|[]]; injection H as _ <-; cbn; lia).
  split; [exact P|]; exact (handler_silent_without_active _ P).
Defined.

(** ** The running application *)

(** X13: in the running application the announcer's tuned station name and
    frequency are always those the dial shows: the text of the dial's
    current prompt and the frequency [render] displays. *)
Theorem announcer_tracks_dial a :
  app_reachable a ->
  currentStationName (announcer a) = option_map text (currentPrompt (dj a)) /\
  currentFrequency (announcer a) = render_frequency (dj a).
Proof.
  intros R; destruct (app_reachable_inv a R) as (i & _ & -> & Nm & Fq & _).
  split; assumption.
Qed.

Lemma announcer_tracks_dial_witness :
  app_reachable main_init /\
  currentStationName (announcer main_init) = option_map text (currentPrompt (dj main_init)) /\
  currentFrequency (announcer main_init) = render_frequency (dj main_init).
Proof.
  split; [exact app_reach_init|]; exact (announcer_tracks_dial _ app_reach_init).
Defined.

(** X14: every announcer state of the running application is a reachable
    state of the announcer on its own, so the announcer's invariants hold
    in the application. *)
Theorem app_announcer_reachable a : app_reachable a -> reachable (announcer a).
Proof. intros R; destruct (app_reachable_inv a R) as (i & _ & _ & _ & _ & H & _); exact H. Qed.

Lemma app_announcer_reachable_witness :
  app_reachable main_init /\ reachable (announcer main_init).
Proof. split; [exact app_reach_init|]; exact (app_announcer_reachable _ app_reach_init). Defined.

(** X15: in the running application every generation request names a
    station of [DEFAULT_PROMPTS] together with the frequency the dial shows
    for it. *)
Theorem requests_name_real_stations a e n f t :
  app_reachable a -> In (EvGenRequest e n f t) (log (announcer a)) ->
  exists i c, nth_error DEFAULT_PROMPTS i = Some (c, n) /\
              station_frequency (Z.of_nat i) = Some f.
Proof.
  intros R Hin; destruct (app_reachable_inv a R) as (i & _ & _ & _ & _ & _ & G).
  exact (G e n f t Hin).
Qed.

Lemma requests_name_real_stations_witness :
  app_reachable app_after_request /\
  In (EvGenRequest 2 "Post Punk" "92.5" 800) (log (announcer app_after_request)) /\
  exists i c, nth_error DEFAULT_PROMPTS i = Some (c, "Post Punk"%string) /\
              station_frequency (Z.of_nat i) = Some "92.5"%string.
Proof.
  assert (R1 : app_reachable (app_dial_to 3 main_init))
    by (eapply app_reach_step; [exact app_reach_init | apply app_dial_step; vm_compute; discriminate]).
  assert (R2 : app_reachable (app_announcer_to (app_dial_to 3 main_init) (ATick 800)))
    by (eapply app_reach_step; [exact R1 | apply app_announcer_step; [reflexivity | vm_compute; discriminate]]).
  assert (R : app_reachable app_after_request)
    by (eapply app_reach_step; [exact R2 | apply app_announcer_step; [reflexivity | vm_compute; discriminate]]).
  assert (H : In (EvGenRequest 2 "Post Punk" "92.5" 800) (log (announcer app_after_request)))
    by (vm_compute; left; reflexivity).
  split; [exact R|]; split; [exact H|].
  exact (requests_name_real_stations _ _ _ _ _ R H).
Defined.

(** X16: a dial move to the station already shown changes nothing; a move
    to another station always retunes the announcer (never deduplicated,
    never throwing): a new epoch starts, the pending announcement is
    dropped, and the settle timer is armed with the new station's name and
    the frequency the dial shows for it. *)
Theorem dial_retunes_announcer a rawIndex :
  app_reachable a ->
  let index := clamp_index (List.length (promptKeys (dj a))) rawIndex in
  (index = activeIndex (dj a) -> dial rawIndex a = Some a) /\
  (index <> activeIndex (dj a) ->
     exists a' c t f, dial rawIndex a = Some a' /\ activeIndex (dj a') = index /\
       nth_error DEFAULT_PROMPTS index = Some (c, t) /\
       station_frequency (Z.of_nat index) = Some f /\
       stationId (announcer a') = S (stationId (announcer a)) /\
       pendingBufferPromise (announcer a') = None /\
       debounceTimer (announcer a') = Some ((now (announcer a) + D_settle)%N, t, f)).
Proof.
  intros R; destruct (app_reachable_inv a R) as (i & Hi & Dj & Nm & Fq & _).
  destruct (dj_at_station i Hi) as (_ & _ & _ & _ & _ & Act & Len & _).
  cbv zeta; unfold dial; rewrite Dj, Act, Len.
  set (idx := clamp_index station_count rawIndex).
  assert (Hidx : idx < station_count)
    by (unfold idx, clamp_index, station_count; cbn [List.length DEFAULT_PROMPTS]; lia).
  rewrite (setStation_dj_at i idx Hi Hidx).
  split.
  - intros ->; rewrite Nat.eqb_refl; destruct a as [d s]; cbn in Dj; rewrite Dj; reflexivity.
  - intros Ne; apply Nat.eqb_neq in Ne as Ne'; rewrite Ne'.
    destruct (dj_at_station idx Hidx) as (c & t & f & Nth & Fr & Act' & _ & Tx & Rf & Pc).
    rewrite Pc.
    destruct (same_station (currentStationName (announcer a)) t) eqn:Same.
    { exfalso; apply Ne, (dj_at_names_distinct idx i Hidx Hi).
      rewrite Nm in Same; destruct (currentPrompt (dj_at i)) as [p|]; [|discriminate].
      cbn in Same; apply String.eqb_eq in Same; rewrite Tx; cbn; rewrite Same; reflexivity. }
    destruct (onStationChange_fields t f (announcer a)) as [_ [_ Diff]].
    destruct (Diff Same) as (Sid & _ & _ & Pend & Db & _).
    eexists; exists c, t, f; split; [reflexivity|].
    cbn [dj announcer]; rewrite Act', Sid, Pend, Db; auto 10.
Qed.

Lemma dial_retunes_announcer_witness :
  app_reachable main_init /\
  let index := clamp_index (List.length (promptKeys (dj main_init))) 5 in
  (index = activeIndex (dj main_init) -> dial 5 main_init = Some main_init) /\
  (index <> activeIndex (dj main_init) ->
     exists a' c t f, dial 5 main_init = Some a' /\ activeIndex (dj a') = index /\
       nth_error DEFAULT_PROMPTS index = Some (c, t) /\
       station_frequency (Z.of_nat index) = Some f /\
       stationId (announcer a') = S (stationId (announcer main_init)) /\
       pendingBufferPromise (announcer a') = None /\
       debounceTimer (announcer a') = Some ((now (announcer main_init) + D_settle)%N, t, f)).
Proof. split; [exact app_reach_init|]; exact (dial_retunes_announcer main_init 5 app_reach_init). Defined.
